(** * IChingScorer: a shallow embedding of [src/i_ching_scorer.py]

    Python [int] is [Z]; Python [float] is read in exact arithmetic as a
    canonical rational [Qc], so that the statements below are the
    "exact arithmetic" reading of the properties of the scorer.  A Python
    [dict] is a finite map [gmap]; [set] is [gset]; a raised exception is the
    [Raise] branch of [result].  The instance state ([self]) is threaded
    explicitly: every method maps the state before the call to the state after
    it together with what the call returns or raises. *)

From Stdlib Require Import ZArith QArith Qcanon Qcabs.
From stdpp Require Import base numbers option list list_numbers sorting gmap strings fin_maps.

Local Open Scope Z_scope.

(** ** Exceptions and results *)

Inductive pykey : Type :=
  | KInt (i : Z)
  | KStr (s : string).

Inductive exn : Type :=
  | ZeroDivisionError
  | KeyError (k : pykey)
  | StatisticsError
  | IndexError.

Inductive result (A : Type) : Type :=
  | Ok (a : A)
  | Raise (e : exn).
Arguments Ok {A} a.
Arguments Raise {A} e.

Global Instance result_ret : MRet result := λ A a, Ok a.
Global Instance result_bind : MBind result := λ A B f m,
  match m with
  | Ok a => f a
  | Raise e => Raise e
  end.
Global Instance result_fmap : FMap result := λ A B f m,
  match m with
  | Ok a => Ok (f a)
  | Raise e => Raise e
  end.

Definition is_Ok {A} (r : result A) : Prop := ∃ a, r = Ok a.
Definition raises {A} (r : result A) : Prop := ∃ e, r = Raise e.

(** ** Python arithmetic on exact numbers *)

Module Py.

(** [x / y]: true division; a zero divisor raises. *)
Definition truediv (x y : Qc) : result Qc :=
  if decide (y = 0%Qc) then Raise ZeroDivisionError else Ok (x / y)%Qc.

(** [range(a, b)] *)
Definition range (a b : Z) : list Z := seqZ a (b - a).

(** [sum(xs)] over floats: starts from 0 and adds from the left. *)
Definition sum (xs : list Qc) : Qc := foldl Qcplus 0%Qc xs.

(** [sum(xs)] over ints. *)
Definition sumZ (xs : list Z) : Z := foldl Z.add 0 xs.

(** [sorted(xs)] over ints. *)
Definition sorted (xs : list Z) : list Z := merge_sort Z.le xs.

(** [statistics.mean(data)]: the standard library raises [StatisticsError]
    when [data] is empty, and returns [sum(data) / len(data)] otherwise. *)
Definition mean (data : list Qc) : result Qc :=
  match data with
  | [] => Raise StatisticsError
  | _ => Ok (sum data / Qc_of_Z (Z.of_nat (length data)))%Qc
  end.

(** [d[k]] on a dict with integer keys. *)
Definition getitem {V} (d : gmap Z V) (k : Z) : result V :=
  match d !! k with
  | Some v => Ok v
  | None => Raise (KeyError (KInt k))
  end.

(** [d[k]] on a dict with string keys. *)
Definition getitem_str {V} (d : gmap string V) (k : string) : result V :=
  match d !! k with
  | Some v => Ok v
  | None => Raise (KeyError (KStr k))
  end.

(** [d.get(k, dflt)] *)
Definition get `{Countable K} {V} (d : gmap K V) (k : K) (dflt : V) : V :=
  default dflt (d !! k).

(** [{k: f(k, v) for k, v in d.items()}] where [f] may raise. *)
Definition dict_comprehension {V W} (f : Z → V → result W) (d : gmap Z V)
    : result (gmap Z W) :=
  kvs ← mapM (λ kv, w ← f kv.1 kv.2; mret (kv.1, w)) (map_to_list d);
  mret (list_to_map kvs).

(** [{k: f(k) for k in ks}]; a later occurrence of a key overwrites. *)
Definition dict_from_keys {V} (f : Z → V) (ks : list Z) : gmap Z V :=
  foldl (λ d k, <[k := f k]> d) ∅ ks.

(** [Counter.update(iterable)]: one more occurrence for each element. *)
Definition Counter_update (counts : gmap Z Z) (xs : list Z) : gmap Z Z :=
  foldl (λ c x, <[x := get c x 0 + 1]> c) counts xs.

(** [for x in xs: acc = step(acc, x)] where [step] may raise. *)
Fixpoint foldlM {A B} (step : A → B → result A) (acc : A) (xs : list B) : result A :=
  match xs with
  | [] => Ok acc
  | x :: xs => acc' ← step acc x; foldlM step acc' xs
  end.

(** [d[i] *= x] *)
Definition imul (d : gmap Z Qc) (i : Z) (x : Qc) : result (gmap Z Qc) :=
  v ← getitem d i; mret (<[i := (v * x)%Qc]> d).

Definition keys {V} (d : gmap Z V) : list Z := (map_to_list d).*1.
Definition values {V} (d : gmap Z V) : list V := (map_to_list d).*2.

(** truth value of an optional container argument: [None] and the empty
    container are both false. *)
Definition truthy_dict `{Countable K} {V} (o : option (gmap K V)) : bool :=
  match o with
  | Some d => bool_decide (d ≠ ∅)
  | None => false
  end.

Definition truthy_list {A} (o : option (list A)) : bool :=
  match o with
  | Some (_ :: _) => true
  | _ => false
  end.

End Py.

(** ** The scorer object *)

Record IChingScorer : Type := mkScorer {
  config : gmap string Z;
  num_numbers : Z;
  historical_draws : list (list Z);
  smoothing : Qc;
  frequencies : gmap Z Z;
  probabilities : gmap Z Qc
}.

Definition set_probabilities (p : gmap Z Qc) (self : IChingScorer) : IChingScorer :=
  {| config := config self;
     num_numbers := num_numbers self;
     historical_draws := historical_draws self;
     smoothing := smoothing self;
     frequencies := frequencies self;
     probabilities := p |}.

(** A method takes the state before the call and gives the state after it
    with the returned value or the raised exception. *)
Definition method (A : Type) : Type := IChingScorer → IChingScorer * result A.

(** *** Probability calculations *)

(** [_compute_frequencies]: reads [historical_draws] and [num_numbers]. *)
Definition _compute_frequencies (num_numbers : Z) (historical_draws : list (list Z))
    : gmap Z Z :=
  let counts := foldl Py.Counter_update ∅ historical_draws in
  Py.dict_from_keys (λ i, Py.get counts i 0) (Py.range 1 (num_numbers + 1)).

(** [i % 5 or 5] *)
Definition modifier (i : Z) : Z :=
  if decide (i `mod` 5 = 0) then 5 else i `mod` 5.

(** The loop of [calculate_probabilities]: one iteration. *)
Definition weigh (freqs : gmap Z Z) (smoothing : Qc)
    (acc : gmap Z Qc * Qc) (i : Z) : gmap Z Qc * Qc :=
  let count := Py.get freqs i 0 in
  let value := ((Qc_of_Z count + smoothing) * Qc_of_Z (modifier i))%Qc in
  (<[i := value]> acc.1, (acc.2 + value)%Qc).

Definition calculate_probabilities (smoothing_arg : option Qc) : method (gmap Z Qc) :=
  λ self,
    let smoothing := default (smoothing self) smoothing_arg in
    let '(weighted, total) :=
      foldl (weigh (frequencies self) smoothing) (∅, 0%Qc)
            (Py.range 1 (num_numbers self + 1)) in
    match Py.dict_comprehension (λ _ v, Py.truediv v total) weighted with
    | Ok p => (set_probabilities p self, Ok p)
    | Raise e => (self, Raise e)
    end.

(** [__init__]: the attributes are bound in the order of the source; the
    probability attribute is bound by the first [calculate_probabilities]. *)
Definition __init__ (config : gmap string Z) (historical_draws : list (list Z))
    (smoothing : Qc) : result IChingScorer :=
  num_numbers ← Py.getitem_str config "num_lotto_numbers";
  let self0 :=
    {| config := config;
       num_numbers := num_numbers;
       historical_draws := historical_draws;
       smoothing := smoothing;
       frequencies := _compute_frequencies num_numbers historical_draws;
       probabilities := ∅ |} in
  match calculate_probabilities None self0 with
  | (self, Ok _) => Ok self
  | (_, Raise e) => Raise e
  end.

(** *** Ensemble combination *)

(** One optional factor of the loop body: [if w: combined[i] *= w.get(i, 1.0)]. *)
Definition apply_weights (w : option (gmap Z Qc)) (combined : gmap Z Qc) (i : Z)
    : result (gmap Z Qc) :=
  match w with
  | Some d => if Py.truthy_dict w then Py.imul combined i (Py.get d i 1%Qc)
              else Ok combined
  | None => Ok combined
  end.

Definition ensemble_probabilities (temporal_weights ml_predictions : option (gmap Z Qc))
    : method (gmap Z Qc) :=
  λ self,
    (self,
     let combined := probabilities self in
     combined ← Py.foldlM
       (λ combined i,
          combined ← apply_weights temporal_weights combined i;
          apply_weights ml_predictions combined i)
       combined (Py.keys combined);
     let total := Py.sum (Py.values combined) in
     Py.dict_comprehension (λ _ v, Py.truediv v total) combined).

(** *** Scoring utilities *)

Definition score (number_set : list Z) : method Qc :=
  λ self,
    (self,
     ps ← mapM (Py.getitem (probabilities self)) number_set;
     Py.mean ps).

Record components : Type := mkComponents {
  comp_spread : Qc;
  comp_sum : Qc;
  comp_frequency : Qc;
  comp_recent : Qc
}.

Record score_record : Type := mkRecord {
  rec_set : list Z;
  rec_score : Qc;
  rec_components : components
}.

Definition quarter : Qc := Q2Qc (1 # 4).

Definition default_weights : gmap string Qc :=
  <["spread" := quarter]> (<["sum" := quarter]>
    (<["frequency" := quarter]> (<["recent" := quarter]> ∅))).

(** [recent_numbers]: the union of the recent draws, empty when the argument
    is [None] or an empty sequence. *)
Definition recent_numbers_of (recent_draws : option (list (list Z))) : gset Z :=
  match recent_draws with
  | Some draws =>
      if Py.truthy_list recent_draws
      then foldl (λ acc draw, acc ∪ list_to_set draw) ∅ draws
      else ∅
  | None => ∅
  end.

Definition composite (weights : gmap string Qc)
    (spread_score sum_score freq_score recent_score : Qc) : result Qc :=
  w_spread ← Py.getitem_str weights "spread";
  w_sum ← Py.getitem_str weights "sum";
  w_frequency ← Py.getitem_str weights "frequency";
  w_recent ← Py.getitem_str weights "recent";
  mret (w_spread * spread_score + w_sum * sum_score
        + w_frequency * freq_score + w_recent * recent_score)%Qc.

(** The body of the loop over [candidate_sets], one definition for each of
    its assignments. *)
Definition expected_sum_of (max_number k : Z) : Qc :=
  (Qc_of_Z (max_number + 1) / Qc_of_Z 2 * Qc_of_Z k)%Qc.

Definition spread_score_of (max_number : Z) (s_sorted : list Z) : result Qc :=
  let k := Z.of_nat (length s_sorted) in
  if decide (1 < k) then
    match last s_sorted, s_sorted !! 0%nat with
    | Some hi, Some lo => Py.truediv (Qc_of_Z (hi - lo)) (Qc_of_Z max_number)
    | _, _ => Raise IndexError
    end
  else Ok 0%Qc.

Definition sum_score_of (max_number : Z) (s_sorted : list Z) : result Qc :=
  let k := Z.of_nat (length s_sorted) in
  let expected_sum := expected_sum_of max_number k in
  deviation ← Py.truediv (Qcabs (Qc_of_Z (Py.sumZ s_sorted) - expected_sum)) expected_sum;
  mret (1 - deviation)%Qc.

Definition freq_score_of (probs : gmap Z Qc) (s_sorted : list Z) : result Qc :=
  let k := Z.of_nat (length s_sorted) in
  ps ← mapM (Py.getitem probs) s_sorted;
  Py.truediv (Py.sum ps) (Qc_of_Z k).

Definition recent_score_of (recent_numbers : gset Z) (s_sorted : list Z) : result Qc :=
  let k := Z.of_nat (length s_sorted) in
  if decide (recent_numbers ≠ ∅) then
    overlap ← Py.truediv
      (Qc_of_Z (Z.of_nat (size (list_to_set s_sorted ∩ recent_numbers))))
      (Qc_of_Z k);
    mret (1 - overlap)%Qc
  else Ok 1%Qc.

Definition score_set (max_number : Z) (probs : gmap Z Qc) (recent_numbers : gset Z)
    (weights : gmap string Qc) (s : list Z) : result score_record :=
  let s_sorted := Py.sorted s in
  spread_score ← spread_score_of max_number s_sorted;
  sum_score ← sum_score_of max_number s_sorted;
  freq_score ← freq_score_of probs s_sorted;
  recent_score ← recent_score_of recent_numbers s_sorted;
  final ← composite weights spread_score sum_score freq_score recent_score;
  mret {| rec_set := s_sorted;
          rec_score := final;
          rec_components :=
            {| comp_spread := spread_score;
               comp_sum := sum_score;
               comp_frequency := freq_score;
               comp_recent := recent_score |} |}.

Definition score_prediction_sets (candidate_sets : list (list Z))
    (recent_draws : option (list (list Z))) (weights : option (gmap string Qc))
    : method (list score_record) :=
  λ self,
    let weights := default default_weights weights in
    let recent_numbers := recent_numbers_of recent_draws in
    let max_number := num_numbers self in
    (self,
     mapM (score_set max_number (probabilities self) recent_numbers weights)
          candidate_sets).

(** ** Notions used in the statements *)

(** Number of occurrences of [i] over all the draws, duplicates included. *)
Definition occurrences (i : Z) (draws : list (list Z)) : Z :=
  Z.of_nat (length (filter (λ x, x = i) (concat draws))).

(** The draws with every entry outside [1, N] removed. *)
Definition in_range_only (N : Z) (draws : list (list Z)) : list (list Z) :=
  filter (λ x, 1 ≤ x ≤ N) <$> draws.

(** The weight that [calculate_probabilities] gives to [i] before it
    normalises: the [value] of one iteration of its loop. *)
Definition weight (freqs : gmap Z Z) (s : Qc) (i : Z) : Qc :=
  ((Qc_of_Z (Py.get freqs i 0%Z) + s) * Qc_of_Z (modifier i))%Qc.

(** The [weighted] dict and the [total] at the end of that loop. *)
Definition weighted_of (freqs : gmap Z Z) (s : Qc) (N : Z) : gmap Z Qc :=
  Py.dict_from_keys (weight freqs s) (Py.range 1 (N + 1)).

Definition total_of (freqs : gmap Z Z) (s : Qc) (N : Z) : Qc :=
  Py.sum (weight freqs s <$> Py.range 1 (N + 1)).

(** A mapping over [1, N] whose values sum to one. *)
Definition normalised (N : Z) (p : gmap Z Qc) : Prop :=
  (∀ i, i ∈ dom p ↔ 1 ≤ i ≤ N) ∧ Py.sum (Py.values p) = 1%Qc.

(** What the other methods read from the object: everything but the raw
    history and the configuration. *)
Definition numbers_of (self : IChingScorer) : Z * Qc * gmap Z Z * gmap Z Qc :=
  (num_numbers self, smoothing self, frequencies self, probabilities self).

Definition cfg (n : Z) : gmap string Z := {[ "num_lotto_numbers" := n ]}.

(** The object as [__init__] has it just before its call of
    [calculate_probabilities]. *)
Definition self0 (c : gmap string Z) (N : Z) (draws : list (list Z)) (s : Qc)
    : IChingScorer :=
  {| config := c;
     num_numbers := N;
     historical_draws := draws;
     smoothing := s;
     frequencies := _compute_frequencies N draws;
     probabilities := ∅ |}.

(** The history of Scenario B (and of the repository's second unit test). *)
Definition draws_B : list (list Z) := [[1]; [5]].

(** The history of Scenario A (and of the repository's first unit test). *)
Definition draws_A : list (list Z) := [[1; 2; 3]; [3; 4; 5]; [5; 5; 5]].

(** The objects a program can hold: built by the constructor, then taken
    through any sequence of method calls. *)
Inductive reachable : IChingScorer → Prop :=
  | reachable_init c draws s self :
      __init__ c draws s = Ok self → reachable self
  | reachable_calculate o self :
      reachable self → reachable (calculate_probabilities o self).1
  | reachable_ensemble tw ml self :
      reachable self → reachable (ensemble_probabilities tw ml self).1
  | reachable_score number_set self :
      reachable self → reachable (score number_set self).1
  | reachable_score_sets cands recent weights self :
      reachable self → reachable (score_prediction_sets cands recent weights self).1.

(** What every reachable object stores as probabilities: nothing when the
    range is empty, a normalised mapping over the range otherwise. *)
Definition stored_ok (self : IChingScorer) : Prop :=
  (num_numbers self ≤ 0 ∧ probabilities self = ∅)
  ∨ (1 ≤ num_numbers self ∧ normalised (num_numbers self) (probabilities self)).

(** A weighting argument that is omitted or gives 1.0 to every number of the
    range. *)
Definition neutral (N : Z) (w : option (gmap Z Qc)) : Prop :=
  match w with
  | None => True
  | Some d => ∀ i, 1 ≤ i ≤ N → d !! i = Some 1%Qc
  end.

(** The sum-balance score in the words of the specification:
    [1 - |actual_sum - expected_sum| / expected_sum] with
    [expected_sum = (N + 1) / 2 * k]. *)
Definition sum_balance (N : Z) (s : list Z) : Qc :=
  let expected_sum := expected_sum_of N (Z.of_nat (length s)) in
  (1 - Qcabs (Qc_of_Z (Py.sumZ s) - expected_sum) / expected_sum)%Qc.

(** The overlap fraction in the words of the specification: the fraction of
    the numbers of the candidate set that appear in some recent draw. *)
Definition overlap_fraction (s : list Z) (recent_draws : list (list Z)) : Qc :=
  (Qc_of_Z (Z.of_nat (length (filter (λ n, n ∈ concat recent_draws) s)))
   / Qc_of_Z (Z.of_nat (length s)))%Qc.

(** The same with each number of the candidate sequence counted once in the
    numerator, whatever its number of occurrences in the sequence. *)
Definition distinct_overlap_fraction (s : list Z) (recent_draws : list (list Z)) : Qc :=
  (Qc_of_Z (Z.of_nat (length (filter (λ n, n ∈ concat recent_draws) (remove_dups s))))
   / Qc_of_Z (Z.of_nat (length s)))%Qc.

(** The four keys read from the component weights. *)
Definition weight_keys : list string := ["spread"; "sum"; "frequency"; "recent"].

(** Scenario E: one recent draw [[1, 2]] and the candidate set [1, 2, 3]. *)
Definition recent_E : list (list Z) := [[1; 2]].
Definition candidate_E : list Z := [1; 2; 3].

(** Scenario C and D: the candidate set [1, 10] against N = 10 has the
    expected sum 11; the one-number sequence [30] is far above its expected
    sum 5.5. *)
Definition candidate_C : list Z := [1; 10].
Definition candidate_far : list Z := [30].

(** ** Notions used in the further properties *)

(** The multiplier that one weighting argument of [ensemble_probabilities]
    contributes for the number [i]: [w.get(i, 1.0)] when the argument is a
    non-empty mapping, and nothing (1) when it is omitted or empty. *)
Definition factor (w : option (gmap Z Qc)) (i : Z) : Qc :=
  match w with
  | Some d => if Py.truthy_dict w then Py.get d i 1%Qc else 1%Qc
  | None => 1%Qc
  end.

(** The [combined] mapping at the end of the loop of
    [ensemble_probabilities]. *)
Definition blended (tw ml : option (gmap Z Qc)) (probs : gmap Z Qc) : gmap Z Qc :=
  map_imap (λ i v, Some (v * factor tw i * factor ml i)%Qc) probs.

(** Every stored probability lies between 0 and 1. *)
Definition unit_valued (probs : gmap Z Qc) : Prop :=
  ∀ i v, probs !! i = Some v → (0 ≤ v ∧ v ≤ 1)%Qc.

(** A weighting argument that gives 0 to every number of the range. *)
Definition all_zero (N : Z) (d : gmap Z Qc) : Prop :=
  ∀ i, 1 ≤ i ≤ N → d !! i = Some 0%Qc.

(** The weighting argument that gives 0 to each of 1..N. *)
Definition zeros (N : Z) : gmap Z Qc :=
  Py.dict_from_keys (λ _, 0%Qc) (Py.range 1 (N + 1)).

(** An illustration for the ensemble: the number 1 twice as likely, the
    others as they are. *)
Definition double_one : gmap Z Qc := {[ 1 := Qc_of_Z 2 ]}.

(** A candidate sequence with a number outside the range 1..10. *)
Definition candidate_out : list Z := [3; 11; 2].

(** The candidate set of Scenario E in another order. *)
Definition candidate_E' : list Z := [3; 1; 2].

(** * Properties *)

(** ** Sums of exact numbers *)

Section sums.
Local Open Scope Qc_scope.

Lemma sum_foldl_shift (a : Qc) (xs : list Qc) :
  foldl Qcplus a xs = a + Py.sum xs.
Proof.
  unfold Py.sum. revert a. induction xs as [|x xs IH]; intros a; simpl.
  - ring.
  - rewrite (IH (a + x)), (IH (0 + x)). ring.
Qed.

Lemma sum_nil : Py.sum [] = 0.
Proof. reflexivity. Qed.

Lemma sum_cons (x : Qc) (xs : list Qc) : Py.sum (x :: xs) = x + Py.sum xs.
Proof. unfold Py.sum at 1. simpl. rewrite sum_foldl_shift. ring. Qed.

Lemma sum_app (xs ys : list Qc) : Py.sum (xs ++ ys) = Py.sum xs + Py.sum ys.
Proof.
  induction xs as [|x xs IH]; simpl.
  - rewrite sum_nil. ring.
  - rewrite !sum_cons, IH. ring.
Qed.

Lemma sum_Permutation (xs ys : list Qc) : xs ≡ₚ ys → Py.sum xs = Py.sum ys.
Proof.
  induction 1 as [|x xs ys _ IH|x y xs|xs ys zs _ IH1 _ IH2].
  - done.
  - by rewrite !sum_cons, IH.
  - rewrite !sum_cons. ring.
  - by rewrite IH1.
Qed.

Lemma sum_scale (c : Qc) (xs : list Qc) :
  Py.sum ((λ v, v * c) <$> xs) = Py.sum xs * c.
Proof.
  induction xs as [|x xs IH]; csimpl.
  - rewrite sum_nil. ring.
  - rewrite !sum_cons, IH. ring.
Qed.

Lemma sum_nonneg (xs : list Qc) : Forall (λ v, 0 ≤ v) xs → 0 ≤ Py.sum xs.
Proof.
  induction 1 as [|x xs Hx _ IH].
  - done.
  - rewrite sum_cons. by apply Qcplus_nonneg_nonneg.
Qed.

Lemma sum_pos (xs : list Qc) :
  Forall (λ v, 0 ≤ v) xs → Exists (λ v, 0 < v) xs → 0 < Py.sum xs.
Proof.
  intros Hall Hex. induction Hex as [x xs Hx|x xs _ IH];
    apply Forall_cons in Hall as [H0 Hall]; rewrite sum_cons.
  - apply Qcplus_pos_nonneg; [done|by apply sum_nonneg].
  - apply Qcplus_nonneg_pos; [done|by apply IH].
Qed.

Lemma sumZ_foldl_shift (a : Z) (xs : list Z) :
  foldl Z.add a xs = (a + Py.sumZ xs)%Z.
Proof.
  unfold Py.sumZ. revert a. induction xs as [|x xs IH]; intros a; simpl.
  - lia.
  - rewrite (IH (a + x)%Z), (IH (0 + x)%Z). lia.
Qed.

Lemma sumZ_cons (x : Z) (xs : list Z) : Py.sumZ (x :: xs) = (x + Py.sumZ xs)%Z.
Proof. unfold Py.sumZ at 1. simpl. rewrite sumZ_foldl_shift. lia. Qed.

Lemma sumZ_Permutation (xs ys : list Z) : xs ≡ₚ ys → Py.sumZ xs = Py.sumZ ys.
Proof.
  induction 1 as [|x xs ys _ IH|x y xs|xs ys zs _ IH1 _ IH2].
  - done.
  - by rewrite !sumZ_cons, IH.
  - rewrite !sumZ_cons. lia.
  - by rewrite IH1.
Qed.

Lemma sumZ_sorted (xs : list Z) : Py.sumZ (Py.sorted xs) = Py.sumZ xs.
Proof. apply sumZ_Permutation, merge_sort_Permutation. Qed.

Lemma length_sorted (xs : list Z) : length (Py.sorted xs) = length xs.
Proof. apply Permutation_length, merge_sort_Permutation. Qed.

End sums.

(** ** Loops and comprehensions that may raise *)

Section mapM_result.
Context {A B : Type} (f : A → result B).

Lemma mapM_nil : mapM f [] = Ok [].
Proof. reflexivity. Qed.

Lemma mapM_cons (x : A) (l : list A) :
  mapM f (x :: l) = y ← f x; k ← mapM f l; mret (y :: k).
Proof. reflexivity. Qed.

Lemma mapM_Ok_fmap (g : A → B) (l : list A) :
  Forall (λ x, f x = Ok (g x)) l → mapM f l = Ok (g <$> l).
Proof.
  induction 1 as [|x l Hx _ IH]; [done|].
  by rewrite mapM_cons, Hx, IH.
Qed.

Lemma mapM_Ok_inv (l : list A) (k : list B) :
  mapM f l = Ok k → Forall2 (λ x y, f x = Ok y) l k.
Proof.
  revert k. induction l as [|x l IH]; intros k.
  - intros [= <-]. constructor.
  - rewrite mapM_cons. destruct (f x) as [y|e] eqn:Hx; [|done].
    destruct (mapM f l) as [k'|e] eqn:Hl; [|done].
    intros [= <-]. constructor; auto.
Qed.

Lemma mapM_Ok_intro (l : list A) (k : list B) :
  Forall2 (λ x y, f x = Ok y) l k → mapM f l = Ok k.
Proof.
  induction 1 as [|x y l k Hx _ IH]; [done|].
  by rewrite mapM_cons, Hx, IH.
Qed.

Lemma mapM_Raise_at (pre post : list A) (x : A) (e : exn) :
  Forall (λ y, is_Ok (f y)) pre → f x = Raise e →
  mapM f (pre ++ x :: post) = Raise e.
Proof.
  intros Hpre Hx. induction Hpre as [|y pre [b Hy] _ IH].
  - by rewrite app_nil_l, mapM_cons, Hx.
  - by rewrite <-app_comm_cons, mapM_cons, Hy, IH.
Qed.

Lemma mapM_raises (l : list A) :
  Exists (λ x, raises (f x)) l → raises (mapM f l).
Proof.
  induction 1 as [x l [e Hx]|x l _ [e IH]]; rewrite mapM_cons.
  - exists e. by rewrite Hx.
  - destruct (f x) as [y|e']; [|by eexists].
    exists e. by rewrite IH.
Qed.

End mapM_result.

Section dicts.
Local Open Scope Qc_scope.

Lemma dict_comprehension_empty {V W} (f : Z → V → result W) :
  Py.dict_comprehension f ∅ = Ok ∅.
Proof. unfold Py.dict_comprehension. by rewrite map_to_list_empty. Qed.

Lemma dict_comprehension_total {V W} (f : Z → V → result W) (g : V → W)
    (d : gmap Z V) :
  (∀ k v, d !! k = Some v → f k v = Ok (g v)) →
  Py.dict_comprehension f d = Ok (g <$> d).
Proof.
  intros Hf. unfold Py.dict_comprehension.
  rewrite (mapM_Ok_fmap _ (prod_map id g)).
  - cbn. f_equal. by rewrite list_to_map_fmap, list_to_map_to_list.
  - apply Forall_forall. intros [k v] Hkv%elem_of_map_to_list.
    cbn. by rewrite (Hf k v Hkv).
Qed.

Lemma dict_comprehension_div (d : gmap Z Qc) (total : Qc) :
  total ≠ 0 →
  Py.dict_comprehension (λ _ v, Py.truediv v total) d = Ok ((λ v, v / total) <$> d).
Proof.
  intros Hne. apply dict_comprehension_total. intros k v _.
  unfold Py.truediv. by rewrite decide_False.
Qed.

Lemma dict_comprehension_div_zero (d : gmap Z Qc) :
  d ≠ ∅ →
  Py.dict_comprehension (λ _ v, Py.truediv v 0) d = Raise ZeroDivisionError.
Proof.
  intros Hne. unfold Py.dict_comprehension.
  destruct (map_to_list d) as [|[k v] l] eqn:Hl.
  - by apply map_to_list_empty_iff in Hl.
  - reflexivity.
Qed.

Lemma values_fmap {V W} (g : V → W) (d : gmap Z V) :
  Py.values (g <$> d) ≡ₚ g <$> Py.values d.
Proof.
  unfold Py.values. rewrite map_to_list_fmap, <-!list_fmap_compose.
  done.
Qed.

Lemma sum_values_div (d : gmap Z Qc) (total : Qc) :
  Py.sum (Py.values ((λ v, v / total) <$> d)) = Py.sum (Py.values d) / total.
Proof.
  rewrite (sum_Permutation _ _ (values_fmap _ d)).
  apply (sum_scale (/ total)).
Qed.

Lemma lookup_foldl_insert {V} (f : Z → V) (ks : list Z) (d : gmap Z V) (k : Z) :
  foldl (λ d k, <[k := f k]> d) d ks !! k
  = if decide (k ∈ ks) then Some (f k) else d !! k.
Proof.
  revert d. induction ks as [|k' ks IH]; intros d; cbn [foldl].
  - destruct (decide (k ∈ [])) as [Hin|_]; [|done].
    by apply elem_of_nil in Hin.
  - rewrite IH. destruct (decide (k ∈ ks)) as [Hin|Hnin];
      destruct (decide (k ∈ k' :: ks)) as [Hin'|Hnin']; try done.
    + exfalso. apply Hnin'. by right.
    + apply elem_of_cons in Hin' as [->|?]; [|done].
      by rewrite lookup_insert_eq.
    + rewrite lookup_insert_ne; [done|].
      intros ->. apply Hnin'. by left.
Qed.

Lemma lookup_dict_from_keys {V} (f : Z → V) (ks : list Z) (k : Z) :
  Py.dict_from_keys f ks !! k = if decide (k ∈ ks) then Some (f k) else None.
Proof. unfold Py.dict_from_keys. by rewrite lookup_foldl_insert, lookup_empty. Qed.

Lemma dict_from_keys_list_to_map {V} (f : Z → V) (ks : list Z) :
  Py.dict_from_keys f ks = list_to_map ((λ k, (k, f k)) <$> ks).
Proof.
  apply map_eq. intros k. rewrite lookup_dict_from_keys.
  destruct (decide (k ∈ ks)) as [Hin|Hnin].
  - symmetry. apply elem_of_list_to_map_1'.
    + intros y [k' [[= <- ->] _]]%list_elem_of_fmap. done.
    + apply list_elem_of_fmap. eauto.
  - symmetry. apply not_elem_of_list_to_map_1.
    rewrite <-list_fmap_compose. cbn. by rewrite list_fmap_id.
Qed.

Lemma dom_dict_from_keys {V} (f : Z → V) (ks : list Z) :
  dom (Py.dict_from_keys f ks) = list_to_set ks.
Proof.
  apply set_eq. intros k. rewrite elem_of_dom, lookup_dict_from_keys.
  rewrite elem_of_list_to_set. destruct (decide (k ∈ ks)); split; try done.
Qed.

Lemma values_dict_from_keys {V} (f : Z → V) (ks : list Z) :
  NoDup ks → Py.values (Py.dict_from_keys f ks) ≡ₚ f <$> ks.
Proof.
  intros Hnd. unfold Py.values. rewrite dict_from_keys_list_to_map.
  rewrite map_to_list_to_map.
  - by rewrite <-list_fmap_compose.
  - rewrite <-list_fmap_compose. cbn. by rewrite list_fmap_id.
Qed.

End dicts.

(** ** Frequencies *)

Section frequencies.

Lemma get_insert_eq (c : gmap Z Z) (x v : Z) : Py.get (<[x := v]> c) x 0 = v.
Proof. unfold Py.get. by rewrite lookup_insert_eq. Qed.

Lemma get_insert_ne (c : gmap Z Z) (x i v : Z) :
  x ≠ i → Py.get (<[x := v]> c) i 0 = Py.get c i 0.
Proof. intros. unfold Py.get. by rewrite lookup_insert_ne. Qed.

Lemma get_Counter_update (c : gmap Z Z) (xs : list Z) (i : Z) :
  Py.get (Py.Counter_update c xs) i 0
  = Py.get c i 0 + Z.of_nat (length (filter (λ x, x = i) xs)).
Proof.
  unfold Py.Counter_update. revert c.
  induction xs as [|x xs IH]; intros c; cbn [foldl].
  - rewrite filter_nil. cbn. lia.
  - rewrite IH. destruct (decide (x = i)) as [->|Hne].
    + rewrite get_insert_eq, filter_cons_True by done. cbn [length]. lia.
    + rewrite get_insert_ne, filter_cons_False by done. done.
Qed.

Lemma get_counts (c : gmap Z Z) (draws : list (list Z)) (i : Z) :
  Py.get (foldl Py.Counter_update c draws) i 0
  = Py.get c i 0 + occurrences i draws.
Proof.
  unfold occurrences. revert c.
  induction draws as [|d draws IH]; intros c; cbn [foldl concat].
  - rewrite filter_nil. cbn. lia.
  - rewrite IH, get_Counter_update, filter_app, length_app. lia.
Qed.

Lemma elem_of_range (a b k : Z) : k ∈ Py.range a b ↔ a ≤ k < b.
Proof. unfold Py.range. rewrite elem_of_seqZ. lia. Qed.

Lemma NoDup_range (a b : Z) : NoDup (Py.range a b).
Proof. apply NoDup_seqZ. Qed.

Lemma lookup_frequencies (N : Z) (draws : list (list Z)) (i : Z) :
  _compute_frequencies N draws !! i
  = if decide (1 ≤ i ≤ N) then Some (occurrences i draws) else None.
Proof.
  unfold _compute_frequencies. rewrite lookup_dict_from_keys, get_counts.
  destruct (decide (i ∈ Py.range 1 (N + 1))) as [Hin|Hnin];
    rewrite elem_of_range in *.
  - rewrite decide_True by lia. by unfold Py.get; rewrite lookup_empty.
  - rewrite decide_False by lia. done.
Qed.

Lemma occurrences_nonneg (i : Z) (draws : list (list Z)) : 0 ≤ occurrences i draws.
Proof. unfold occurrences. lia. Qed.

Lemma occurrences_pos (i : Z) (draws : list (list Z)) :
  i ∈ concat draws → 0 < occurrences i draws.
Proof.
  intros Hin. unfold occurrences.
  assert (i ∈ filter (λ x, x = i) (concat draws)) as Hf
    by (by apply list_elem_of_filter).
  destruct (filter _ _); [by apply elem_of_nil in Hf|cbn; lia].
Qed.

Lemma occurrences_zero (i : Z) (draws : list (list Z)) :
  i ∉ concat draws → occurrences i draws = 0.
Proof.
  intros Hnin. unfold occurrences.
  destruct (filter _ _) as [|y l] eqn:Hf; [done|].
  assert (y ∈ filter (λ x, x = i) (concat draws)) as Hy
    by (rewrite Hf; by left).
  apply list_elem_of_filter in Hy as [-> ?]. done.
Qed.

Lemma occurrences_in_range_only (N i : Z) (draws : list (list Z)) :
  1 ≤ i ≤ N → occurrences i (in_range_only N draws) = occurrences i draws.
Proof.
  intros Hi. unfold occurrences, in_range_only. f_equal. f_equal.
  induction draws as [|d draws IH]; [done|].
  cbn [concat]. rewrite fmap_cons. cbn [concat].
  rewrite !filter_app, IH. f_equal.
  clear IH. induction d as [|x d IH]; [done|].
  destruct (decide (1 ≤ x ≤ N)) as [Hx|Hx].
  - rewrite (filter_cons_True (λ x, 1 ≤ x ≤ N)) by done.
    destruct (decide (x = i)) as [->|Hne].
    + rewrite !(filter_cons_True (λ x, x = i)) by done. by rewrite IH.
    + rewrite !(filter_cons_False (λ x, x = i)) by done. done.
  - rewrite (filter_cons_False (λ x, 1 ≤ x ≤ N)) by done.
    rewrite (filter_cons_False (λ x, x = i)) by lia. done.
Qed.

Lemma frequencies_in_range_only (N : Z) (draws : list (list Z)) :
  _compute_frequencies N (in_range_only N draws) = _compute_frequencies N draws.
Proof.
  apply map_eq. intros i. rewrite !lookup_frequencies.
  destruct (decide (1 ≤ i ≤ N)); [|done].
  by rewrite occurrences_in_range_only.
Qed.

Lemma dom_frequencies (N : Z) (draws : list (list Z)) (i : Z) :
  i ∈ dom (_compute_frequencies N draws) ↔ 1 ≤ i ≤ N.
Proof.
  rewrite elem_of_dom, lookup_frequencies.
  destruct (decide (1 ≤ i ≤ N)); split; try done.
Qed.

End frequencies.

(** ** The probability calculation *)

Section probabilities.
Local Open Scope Qc_scope.

Lemma modifier_bounds (i : Z) : (1 ≤ modifier i ≤ 5)%Z.
Proof.
  unfold modifier. pose proof (Z.mod_pos_bound i 5 ltac:(lia)).
  destruct (decide (i `mod` 5 = 0)%Z); lia.
Qed.

Lemma Qc_of_Z_pos (z : Z) : (0 < z)%Z → 0 < Qc_of_Z z.
Proof. intros Hz. rewrite <-Z2Qc_inj_0. by apply (proj1 (Z2Qc_inj_lt 0 z)). Qed.

Lemma Qc_of_Z_nonneg (z : Z) : (0 ≤ z)%Z → 0 ≤ Qc_of_Z z.
Proof. intros Hz. rewrite <-Z2Qc_inj_0. by apply (proj1 (Z2Qc_inj_le 0 z)). Qed.

Lemma Qc_of_Z_nonzero (z : Z) : z ≠ 0%Z → Qc_of_Z z ≠ 0.
Proof. intros Hz. rewrite <-Z2Qc_inj_0. by intros ?%Z2Qc_inj. Qed.

Lemma modifier_pos (i : Z) : 0 < Qc_of_Z (modifier i).
Proof. apply Qc_of_Z_pos. pose proof (modifier_bounds i). lia. Qed.

Lemma foldl_weigh (freqs : gmap Z Z) (s : Qc) (ks : list Z) (acc : gmap Z Qc * Qc) :
  foldl (weigh freqs s) acc ks
  = (foldl (λ d k, <[k := weight freqs s k]> d) acc.1 ks,
     acc.2 + Py.sum (weight freqs s <$> ks)).
Proof.
  revert acc. induction ks as [|k ks IH]; intros [d t]; cbn [foldl].
  - rewrite fmap_nil, sum_nil. cbn. f_equal. ring.
  - rewrite IH, fmap_cons, sum_cons. cbn. f_equal.
    fold (weight freqs s k). ring.
Qed.

Lemma calculate_probabilities_unfold (o : option Qc) (self : IChingScorer) :
  calculate_probabilities o self
  = let s := default (smoothing self) o in
    match Py.dict_comprehension
            (λ _ v, Py.truediv v (total_of (frequencies self) s (num_numbers self)))
            (weighted_of (frequencies self) s (num_numbers self)) with
    | Ok p => (set_probabilities p self, Ok p)
    | Raise e => (self, Raise e)
    end.
Proof.
  unfold calculate_probabilities. rewrite foldl_weigh. cbn [fst snd].
  rewrite Qcplus_0_l. reflexivity.
Qed.

Lemma normalised_div (freqs : gmap Z Z) (s : Qc) (N : Z) :
  total_of freqs s N ≠ 0 →
  normalised N ((λ v, v / total_of freqs s N) <$> weighted_of freqs s N).
Proof.
  intros Hne. split.
  - intros i. rewrite dom_fmap. unfold weighted_of.
    rewrite dom_dict_from_keys, elem_of_list_to_set, elem_of_range. lia.
  - rewrite sum_values_div. unfold weighted_of.
    rewrite (sum_Permutation _ _ (values_dict_from_keys _ _ (NoDup_range _ _))).
    fold (total_of freqs s N). by field.
Qed.

Lemma calculate_probabilities_nonzero (o : option Qc) (self : IChingScorer) :
  let s := default (smoothing self) o in
  let total := total_of (frequencies self) s (num_numbers self) in
  let p := (λ v, v / total) <$> weighted_of (frequencies self) s (num_numbers self) in
  total ≠ 0 →
  calculate_probabilities o self = (set_probabilities p self, Ok p).
Proof.
  intros s total p Hne. rewrite calculate_probabilities_unfold. cbv zeta.
  fold s. fold total. by rewrite dict_comprehension_div.
Qed.

Lemma weighted_of_nonempty (freqs : gmap Z Z) (s : Qc) (N : Z) :
  (1 ≤ N)%Z → weighted_of freqs s N ≠ ∅.
Proof.
  intros HN Hemp. assert (weighted_of freqs s N !! 1%Z = None) as Hl
    by (by rewrite Hemp, lookup_empty).
  unfold weighted_of in Hl. rewrite lookup_dict_from_keys in Hl.
  rewrite decide_True in Hl; [done|]. apply elem_of_range. lia.
Qed.

Lemma weighted_of_empty (freqs : gmap Z Z) (s : Qc) (N : Z) :
  (N ≤ 0)%Z → weighted_of freqs s N = ∅.
Proof.
  intros HN. unfold weighted_of, Py.range. by rewrite seqZ_nil by lia.
Qed.

Lemma calculate_probabilities_zero (o : option Qc) (self : IChingScorer) :
  (1 ≤ num_numbers self)%Z →
  total_of (frequencies self) (default (smoothing self) o) (num_numbers self) = 0 →
  calculate_probabilities o self = (self, Raise ZeroDivisionError).
Proof.
  intros HN H0. rewrite calculate_probabilities_unfold. cbv zeta.
  rewrite H0, dict_comprehension_div_zero; [done|].
  by apply weighted_of_nonempty.
Qed.

Lemma calculate_probabilities_no_numbers (o : option Qc) (self : IChingScorer) :
  (num_numbers self ≤ 0)%Z →
  calculate_probabilities o self = (set_probabilities ∅ self, Ok ∅).
Proof.
  intros HN. rewrite calculate_probabilities_unfold. cbv zeta.
  by rewrite weighted_of_empty, dict_comprehension_empty.
Qed.

(** Weights over frequencies computed from draws. *)
Lemma get_frequencies (N : Z) (draws : list (list Z)) (i : Z) :
  (1 ≤ i ≤ N)%Z → Py.get (_compute_frequencies N draws) i 0%Z = occurrences i draws.
Proof.
  intros Hi. unfold Py.get. rewrite lookup_frequencies.
  by rewrite decide_True.
Qed.

Lemma weight_nonneg (N : Z) (draws : list (list Z)) (s : Qc) (i : Z) :
  (1 ≤ i ≤ N)%Z → 0 ≤ s → 0 ≤ weight (_compute_frequencies N draws) s i.
Proof.
  intros Hi Hs. unfold weight. rewrite get_frequencies by done.
  apply Qcmult_nonneg_nonneg; [|apply Qclt_le_weak, modifier_pos].
  apply Qcplus_nonneg_nonneg; [|done].
  apply Qc_of_Z_nonneg, occurrences_nonneg.
Qed.

Lemma weight_pos (N : Z) (draws : list (list Z)) (s : Qc) (i : Z) :
  (1 ≤ i ≤ N)%Z → 0 ≤ s → 0 < s ∨ i ∈ concat draws →
  0 < weight (_compute_frequencies N draws) s i.
Proof.
  intros Hi Hs Hpos. unfold weight. rewrite get_frequencies by done.
  apply Qcmult_pos_pos; [|apply modifier_pos].
  destruct Hpos as [Hpos|Hin].
  - apply Qcplus_nonneg_pos; [|done].
    apply Qc_of_Z_nonneg, occurrences_nonneg.
  - apply Qcplus_pos_nonneg; [|done].
    by apply Qc_of_Z_pos, occurrences_pos.
Qed.

Lemma total_of_pos (N : Z) (draws : list (list Z)) (s : Qc) :
  (1 ≤ N)%Z → 0 ≤ s →
  (0 < s ∨ ∃ n, (1 ≤ n ≤ N)%Z ∧ n ∈ concat draws) →
  0 < total_of (_compute_frequencies N draws) s N.
Proof.
  intros HN Hs Hpos. unfold total_of. apply sum_pos.
  - apply Forall_fmap, Forall_forall. intros i Hi%elem_of_range.
    apply weight_nonneg; [lia|done].
  - apply Exists_fmap, Exists_exists. destruct Hpos as [Hpos|(n & Hn & Hin)].
    + exists 1%Z. split; [apply elem_of_range; lia|].
      apply weight_pos; [lia|done|by left].
    + exists n. split; [apply elem_of_range; lia|].
      apply weight_pos; [lia|done|by right].
Qed.

Lemma total_of_zero (N : Z) (draws : list (list Z)) :
  (∀ n, (1 ≤ n ≤ N)%Z → n ∉ concat draws) →
  total_of (_compute_frequencies N draws) 0 N = 0.
Proof.
  intros Hno. unfold total_of.
  assert (Forall (λ v, v = 0) (weight (_compute_frequencies N draws) 0 <$> Py.range 1 (N + 1)))
    as Hall.
  { apply Forall_fmap, Forall_forall. intros i Hi%elem_of_range. cbn.
    unfold weight. rewrite get_frequencies by lia.
    rewrite occurrences_zero by (apply Hno; lia).
    rewrite Z2Qc_inj_0. ring. }
  induction Hall as [|x l -> _ IH]; [done|].
  rewrite sum_cons, IH. ring.
Qed.

End probabilities.

(** ** Construction *)

Section construction.
Local Open Scope Qc_scope.

Lemma init_unfold (c : gmap string Z) (N : Z) (draws : list (list Z)) (s : Qc) :
  c !! "num_lotto_numbers" = Some N →
  __init__ c draws s
  = match calculate_probabilities None (self0 c N draws s) with
    | (self, Ok _) => Ok self
    | (_, Raise e) => Raise e
    end.
Proof. intros Hc. unfold __init__, Py.getitem_str. by rewrite Hc. Qed.

Lemma init_missing_key (c : gmap string Z) (draws : list (list Z)) (s : Qc) :
  c !! "num_lotto_numbers" = None →
  __init__ c draws s = Raise (KeyError (KStr "num_lotto_numbers")).
Proof. intros Hc. unfold __init__, Py.getitem_str. by rewrite Hc. Qed.

(** The recalculation reads the number range, the frequencies and the
    effective smoothing, and nothing else. *)
Lemma calculate_probabilities_reads (o o' : option Qc) (self self' : IChingScorer) :
  num_numbers self = num_numbers self' →
  frequencies self = frequencies self' →
  default (smoothing self) o = default (smoothing self') o' →
  (calculate_probabilities o self).2 = (calculate_probabilities o' self').2
  ∧ probabilities (calculate_probabilities o self).1
    = (if (calculate_probabilities o self).2 is Ok p then p else probabilities self).
Proof.
  intros HN Hf Hs. rewrite !calculate_probabilities_unfold. cbv zeta.
  rewrite HN, Hf, Hs.
  by destruct (Py.dict_comprehension _ _).
Qed.

Lemma init_Ok_inv (c : gmap string Z) (draws : list (list Z)) (s : Qc)
    (self : IChingScorer) :
  __init__ c draws s = Ok self →
  ∃ N p, c !! "num_lotto_numbers" = Some N
    ∧ calculate_probabilities None (self0 c N draws s)
      = (set_probabilities p (self0 c N draws s), Ok p)
    ∧ self = set_probabilities p (self0 c N draws s).
Proof.
  intros Hinit. destruct (c !! "num_lotto_numbers") as [N|] eqn:Hc.
  - rewrite (init_unfold _ _ _ _ Hc) in Hinit. exists N.
    rewrite calculate_probabilities_unfold in *. cbv zeta in *.
    destruct (Py.dict_comprehension _ _) as [p|e]; [|done].
    exists p. by injection Hinit as <-.
  - by rewrite init_missing_key in Hinit.
Qed.

End construction.

(** ** Normalisation *)

Section normalisation.
Local Open Scope Qc_scope.

Lemma init_normalised (c : gmap string Z) (N : Z) (draws : list (list Z)) (s : Qc) :
  c !! "num_lotto_numbers" = Some N →
  total_of (_compute_frequencies N draws) s N ≠ 0 →
  ∃ self, __init__ c draws s = Ok self ∧ normalised N (probabilities self).
Proof.
  intros Hc Hne. rewrite (init_unfold _ _ _ _ Hc).
  rewrite calculate_probabilities_nonzero by done.
  eexists. split; [reflexivity|]. by apply normalised_div.
Qed.

Lemma recalculation_normalised (N : Z) (draws : list (list Z)) (s : Qc)
    (o : option Qc) (self : IChingScorer) :
  num_numbers self = N →
  frequencies self = _compute_frequencies N draws →
  default (smoothing self) o = s →
  total_of (_compute_frequencies N draws) s N ≠ 0 →
  ∃ p, calculate_probabilities o self = (set_probabilities p self, Ok p)
       ∧ normalised N p.
Proof.
  intros HN Hf Hs Hne. rewrite calculate_probabilities_nonzero;
    rewrite HN, Hf, Hs; [|done].
  eexists. split; [reflexivity|]. by apply normalised_div.
Qed.

(** C1, as amended: for a configuration with N >= 1, any historical draws
    and any smoothing >= 0, the construction and every recalculation with
    that smoothing produce a mapping over [1, N] whose values sum to exactly
    one provided the smoothing is positive or some number of [1, N] occurs in
    the draws; with smoothing 0 and no such occurrence both raise
    [ZeroDivisionError] and no mapping is produced. *)
Theorem calculate_probabilities_sums_to_one
    (c : gmap string Z) (N : Z) (draws : list (list Z)) (s : Qc) :
  c !! "num_lotto_numbers" = Some N →
  (1 ≤ N)%Z →
  0 ≤ s →
  (0 < s ∨ (∃ n, (1 ≤ n ≤ N)%Z ∧ n ∈ concat draws) →
     (∃ self, __init__ c draws s = Ok self ∧ normalised N (probabilities self))
     ∧ ∀ self o,
         num_numbers self = N →
         frequencies self = _compute_frequencies N draws →
         default (smoothing self) o = s →
         ∃ p, calculate_probabilities o self = (set_probabilities p self, Ok p)
              ∧ normalised N p)
  ∧ (s = 0 ∧ (∀ n, (1 ≤ n ≤ N)%Z → n ∉ concat draws) →
     __init__ c draws s = Raise ZeroDivisionError
     ∧ ∀ self o,
         num_numbers self = N →
         frequencies self = _compute_frequencies N draws →
         default (smoothing self) o = s →
         calculate_probabilities o self = (self, Raise ZeroDivisionError)).
Proof.
  intros Hc HN Hs. split.
  - intros Hpos.
    assert (total_of (_compute_frequencies N draws) s N ≠ 0) as Hne.
    { apply not_eq_sym, Qclt_not_eq. by apply total_of_pos. }
    split; [by apply init_normalised|].
    intros self o HNs Hf Hso.
    by apply (recalculation_normalised N draws s).
  - intros [-> Hno]. pose proof (total_of_zero N draws Hno) as H0. split.
    + rewrite (init_unfold _ _ _ _ Hc).
      by rewrite calculate_probabilities_zero.
    + intros self o HNs Hf Hso. apply calculate_probabilities_zero.
      * by rewrite HNs.
      * by rewrite HNs, Hf, Hso.
Qed.

Lemma calculate_probabilities_sums_to_one_witness :
  ∃ self, __init__ (cfg 5%Z) draws_B 0 = Ok self
          ∧ normalised 5%Z (probabilities self).
Proof.
  refine (proj1 (proj1 (calculate_probabilities_sums_to_one
    (cfg 5%Z) 5%Z draws_B 0 _ _ _) _)).
  - reflexivity.
  - lia.
  - done.
  - right. exists 1%Z. split; [lia|]. cbn. by left.
Defined.

(** C1, as stated, fails when the smoothing is 0 and no number of the range
    was ever drawn: the total weight is 0 and the normalising division
    raises, at construction and at recalculation alike. *)
Lemma calculate_probabilities_zero_total :
  (1 ≤ 1)%Z ∧ 0 ≤ 0
  ∧ __init__ (cfg 1%Z) [] 0 = Raise ZeroDivisionError
  ∧ (self ← __init__ (cfg 1%Z) [] 1; (calculate_probabilities (Some 0) self).2)
    = Raise ZeroDivisionError
  ∧ ¬ (∃ self, __init__ (cfg 1%Z) [] 0 = Ok self ∧ normalised 1%Z (probabilities self)).
Proof.
  split; [lia|]. split; [done|].
  assert (__init__ (cfg 1%Z) [] 0 = Raise ZeroDivisionError) as Hinit
    by (vm_compute; reflexivity).
  split; [exact Hinit|]. split; [vm_compute; reflexivity|].
  intros (self & Hself & _). by rewrite Hinit in Hself.
Qed.

(** C2: with N = 5, draws [[1], [5]] and smoothing 0, the numbers 1 and 5
    both have frequency 1 and the probability of 5 is strictly greater than
    that of 1. *)
Theorem element_modifiers_change_rankings :
  ∃ self p1 p5,
    __init__ (cfg 5%Z) draws_B 0 = Ok self
    ∧ Py.getitem (frequencies self) 1%Z = Ok 1%Z
    ∧ Py.getitem (frequencies self) 5%Z = Ok 1%Z
    ∧ Py.getitem (probabilities self) 1%Z = Ok p1
    ∧ Py.getitem (probabilities self) 5%Z = Ok p5
    ∧ p1 < p5
    ∧ modifier 1%Z = 1%Z ∧ modifier 5%Z = 5%Z.
Proof.
  eexists _, _, _. split; [vm_compute; reflexivity|].
  split; [vm_compute; reflexivity|]. split; [vm_compute; reflexivity|].
  split; [vm_compute; reflexivity|]. split; [vm_compute; reflexivity|].
  split; [vm_compute; reflexivity|]. split; reflexivity.
Qed.

End normalisation.

(** ** Out-of-range entries of the history *)

Section out_of_range.

Lemma init_reads_frequencies (c : gmap string Z) (draws draws' : list (list Z))
    (s : Qc) :
  (∀ N, c !! "num_lotto_numbers" = Some N →
        _compute_frequencies N draws = _compute_frequencies N draws') →
  numbers_of <$> __init__ c draws s = numbers_of <$> __init__ c draws' s.
Proof.
  intros Hf. destruct (c !! "num_lotto_numbers") as [N|] eqn:Hc.
  - rewrite !(init_unfold _ _ _ _ Hc), !calculate_probabilities_unfold.
    cbv zeta. cbn [frequencies num_numbers smoothing self0 default].
    rewrite (Hf N eq_refl).
    destruct (Py.dict_comprehension _ _) as [p|e]; [|done].
    cbn. unfold numbers_of. cbn. by rewrite (Hf N eq_refl).
  - by rewrite !init_missing_key.
Qed.

(** C9: the frequencies mapping has domain exactly {1, ..., N}, each of its
    values counts the occurrences of its key, and the entries of the history
    outside [1, N] are ignored: removing them changes neither the
    frequencies nor the numbers the constructed object holds (probabilities
    included). *)
Theorem out_of_range_draws_ignored
    (c : gmap string Z) (N : Z) (draws : list (list Z)) (s : Qc) :
  c !! "num_lotto_numbers" = Some N →
  (∀ i, i ∈ dom (_compute_frequencies N draws) ↔ 1 ≤ i ≤ N)
  ∧ (∀ i, 1 ≤ i ≤ N →
       _compute_frequencies N draws !! i
       = Some (occurrences i (in_range_only N draws)))
  ∧ _compute_frequencies N (in_range_only N draws) = _compute_frequencies N draws
  ∧ numbers_of <$> __init__ c (in_range_only N draws) s
    = numbers_of <$> __init__ c draws s.
Proof.
  intros Hc. split; [apply dom_frequencies|]. split; [|split].
  - intros i Hi. rewrite lookup_frequencies, decide_True by done.
    by rewrite occurrences_in_range_only.
  - apply frequencies_in_range_only.
  - apply init_reads_frequencies. intros N' HN'.
    assert (N' = N) as -> by congruence.
    apply frequencies_in_range_only.
Qed.

Lemma out_of_range_draws_ignored_witness :
  _compute_frequencies 5 (in_range_only 5 [[1; 0; 6]; [5; -3; 77]])
  = _compute_frequencies 5 [[1; 0; 6]; [5; -3; 77]]
  ∧ in_range_only 5 [[1; 0; 6]; [5; -3; 77]] = draws_B.
Proof.
  split.
  - refine (proj1 (proj2 (proj2 (out_of_range_draws_ignored
      (cfg 5) 5 [[1; 0; 6]; [5; -3; 77]] 1%Qc _)))).
    reflexivity.
  - reflexivity.
Defined.

End out_of_range.

(** ** What each method leaves untouched *)

Section frame.

Lemma calculate_probabilities_state (o : option Qc) (self : IChingScorer) :
  (calculate_probabilities o self).1
  = set_probabilities (probabilities (calculate_probabilities o self).1) self.
Proof.
  rewrite calculate_probabilities_unfold. cbv zeta.
  destruct (Py.dict_comprehension _ _); [done|]. by destruct self.
Qed.

(** C6: no method changes the stored frequencies, whatever it returns or
    raises; [calculate_probabilities] replaces the stored probability
    mapping and nothing else, and the other three methods leave the whole
    object as it was. *)
Theorem frequencies_never_mutated (self : IChingScorer) :
  (∀ o, frequencies (calculate_probabilities o self).1 = frequencies self)
  ∧ (∀ tw ml, frequencies (ensemble_probabilities tw ml self).1 = frequencies self)
  ∧ (∀ number_set, frequencies (score number_set self).1 = frequencies self)
  ∧ (∀ cands recent weights,
       frequencies (score_prediction_sets cands recent weights self).1
       = frequencies self)
  ∧ (∀ o, (calculate_probabilities o self).1
          = set_probabilities (probabilities (calculate_probabilities o self).1) self)
  ∧ (∀ tw ml, (ensemble_probabilities tw ml self).1 = self)
  ∧ (∀ number_set, (score number_set self).1 = self)
  ∧ (∀ cands recent weights,
       (score_prediction_sets cands recent weights self).1 = self).
Proof.
  repeat split; try done.
  - intros o. by rewrite calculate_probabilities_state.
  - intros o. apply calculate_probabilities_state.
Qed.

(** C8: a smoothing override is used for that call only.  On any object the
    call leaves the stored smoothing field as it was, and a following call
    without argument computes with the stored smoothing, as it would have
    before the override; on a constructed object the stored smoothing is the
    one given to the constructor and that following call returns (and stores)
    the mapping of the construction. *)
Theorem smoothing_override_not_stored (s' : Qc) (self : IChingScorer) :
  let self' := (calculate_probabilities (Some s') self).1 in
  smoothing self' = smoothing self
  ∧ (calculate_probabilities None self').2
    = (calculate_probabilities (Some (smoothing self)) self').2
  ∧ (calculate_probabilities None self').2 = (calculate_probabilities None self).2
  ∧ (∀ c draws s0,
       __init__ c draws s0 = Ok self →
       smoothing self' = s0
       ∧ (calculate_probabilities None self').2 = Ok (probabilities self)
       ∧ probabilities (calculate_probabilities None self').1 = probabilities self).
Proof.
  intros self'.
  assert (smoothing self' = smoothing self ∧ num_numbers self' = num_numbers self
          ∧ frequencies self' = frequencies self) as (Hs & HN & Hf).
  { unfold self'. by rewrite calculate_probabilities_state. }
  split; [exact Hs|]. split; [|split].
  - by apply calculate_probabilities_reads.
  - apply calculate_probabilities_reads; [done..|]. cbn. exact Hs.
  - intros c draws s0 (N & p & Hc & Hcalc & Hself)%init_Ok_inv.
    destruct (calculate_probabilities_reads None None self' (self0 c N draws s0))
      as [Hres Hprob]; [by rewrite HN, Hself| by rewrite Hf, Hself
                        | cbn; by rewrite Hs, Hself |].
    rewrite Hcalc in Hres. cbn [snd] in Hres.
    rewrite Hprob, Hres, Hs. by rewrite Hself.
Qed.

Lemma smoothing_override_not_stored_witness :
  ∃ self, __init__ (cfg 5) draws_B 1%Qc = Ok self
    ∧ (calculate_probabilities None
         (calculate_probabilities (Some 0%Qc) self).1).2 = Ok (probabilities self).
Proof.
  assert (∃ self, __init__ (cfg 5) draws_B 1%Qc = Ok self) as [self Hself]
    by (eexists; vm_compute; reflexivity).
  exists self. split; [exact Hself|].
  pose proof (smoothing_override_not_stored 0%Qc self) as T.
  cbv zeta in T. destruct T as (_ & _ & _ & T).
  exact (proj1 (proj2 (T (cfg 5) draws_B 1%Qc Hself))).
Defined.

(** On the object of Scenario B built with smoothing 1: the override 0 gives
    the number 1 the probability 1/6, and the following call without
    argument gives it 2/21 again, as at construction. *)
Example override_then_default_example :
  (self ← __init__ (cfg 5) draws_B 1%Qc;
   let after := calculate_probabilities (Some 0%Qc) self in
   p ← after.2;
   q ← (calculate_probabilities None after.1).2;
   mret (this <$> p !! 1, this <$> q !! 1, this <$> probabilities self !! 1))
  = Ok (Some (1 # 6), Some (2 # 21), Some (2 # 21)).
Proof. vm_compute. reflexivity. Qed.

End frame.

(** ** Reachable objects *)

Section reachable_objects.
Local Open Scope Qc_scope.

Lemma calculate_probabilities_stored_ok (o : option Qc) (self : IChingScorer) :
  stored_ok self → stored_ok (calculate_probabilities o self).1.
Proof.
  intros Hok. destruct (decide (num_numbers self ≤ 0)%Z) as [HN|HN].
  - rewrite calculate_probabilities_no_numbers by done. by left.
  - set (s := default (smoothing self) o).
    destruct (decide (total_of (frequencies self) s (num_numbers self) = 0))
      as [H0|Hne].
    + rewrite calculate_probabilities_zero by (done || lia). done.
    + rewrite calculate_probabilities_nonzero by done. right.
      split; [cbn; lia|]. by apply normalised_div.
Qed.

Lemma init_stored_ok (c : gmap string Z) (draws : list (list Z)) (s : Qc)
    (self : IChingScorer) :
  __init__ c draws s = Ok self → stored_ok self.
Proof.
  intros (N & p & Hc & Hcalc & ->)%init_Ok_inv.
  destruct (decide (N ≤ 0)%Z) as [HN|HN].
  - rewrite calculate_probabilities_no_numbers in Hcalc by done.
    injection Hcalc as <-. by left.
  - destruct (decide (total_of (_compute_frequencies N draws) s N = 0))
      as [H0|Hne].
    + rewrite calculate_probabilities_zero in Hcalc by (done || cbn; lia). done.
    + rewrite calculate_probabilities_nonzero in Hcalc by done.
      injection Hcalc as <-. right. split; [cbn; lia|].
      by apply normalised_div.
Qed.

Lemma reachable_stored_ok (self : IChingScorer) : reachable self → stored_ok self.
Proof.
  induction 1 as [c draws s self Hinit| | | |]; try done.
  - by eapply init_stored_ok.
  - by apply calculate_probabilities_stored_ok.
Qed.

End reachable_objects.

(** ** Ensemble combination *)

Section ensemble.
Local Open Scope Qc_scope.

Lemma foldlM_fixed {A B} (step : A → B → result A) (acc : A) (xs : list B) :
  Forall (λ x, step acc x = Ok acc) xs → Py.foldlM step acc xs = Ok acc.
Proof.
  induction 1 as [|x xs Hx _ IH]; [done|].
  cbn [Py.foldlM]. by rewrite Hx.
Qed.

Lemma imul_one (d : gmap Z Qc) (i : Z) : i ∈ dom d → Py.imul d i 1 = Ok d.
Proof.
  intros [v Hv]%elem_of_dom. unfold Py.imul, Py.getitem. rewrite Hv. cbn.
  rewrite Qcmult_1_r. by rewrite insert_id.
Qed.

Lemma apply_weights_neutral (N : Z) (w : option (gmap Z Qc)) (d : gmap Z Qc) (i : Z) :
  neutral N w → (1 ≤ i ≤ N)%Z → i ∈ dom d → apply_weights w d i = Ok d.
Proof.
  intros Hw Hi Hd. destruct w as [m|]; [|done]. cbn [apply_weights].
  destruct (Py.truthy_dict (Some m)); [|done].
  unfold Py.get. rewrite (Hw i Hi). by apply imul_one.
Qed.

Lemma elem_of_keys {V} (d : gmap Z V) (i : Z) : i ∈ Py.keys d ↔ i ∈ dom d.
Proof.
  unfold Py.keys. rewrite elem_of_dom, list_elem_of_fmap. split.
  - intros [[k v] [-> Hkv%elem_of_map_to_list]]. by exists v.
  - intros [v Hv]. exists (i, v). split; [done|]. by apply elem_of_map_to_list.
Qed.

Lemma fmap_div_one (d : gmap Z Qc) : (λ v, v / 1) <$> d = d.
Proof.
  rewrite <-(map_fmap_id d) at 2. apply map_fmap_ext. intros i v _.
  apply (right_id 1 Qcdiv).
Qed.

Lemma ensemble_neutral (self : IChingScorer) (tw ml : option (gmap Z Qc)) :
  stored_ok self →
  neutral (num_numbers self) tw → neutral (num_numbers self) ml →
  ensemble_probabilities tw ml self = (self, Ok (probabilities self)).
Proof.
  intros Hok Htw Hml. unfold ensemble_probabilities. f_equal.
  destruct Hok as [[_ Hemp]|[_ [Hdom Hsum]]].
  - rewrite Hemp. unfold Py.keys, Py.values. rewrite map_to_list_empty.
    cbn. apply dict_comprehension_empty.
  - rewrite foldlM_fixed.
    + cbn. rewrite Hsum, dict_comprehension_div by done.
      by rewrite fmap_div_one.
    + apply Forall_forall. intros i Hi%elem_of_keys.
      pose proof (proj1 (Hdom i) Hi) as Hrange.
      rewrite (apply_weights_neutral _ _ _ _ Htw Hrange Hi). cbn.
      by apply (apply_weights_neutral (num_numbers self)).
Qed.

(** C3: on any object a program can hold, combining the stored
    probabilities with temporal and external-model mappings that are omitted
    or give 1.0 to every number of [1, N] returns the stored mapping itself
    (and leaves the object as it was). *)
Theorem ensemble_probabilities_neutral
    (self : IChingScorer) (tw ml : option (gmap Z Qc)) :
  reachable self →
  neutral (num_numbers self) tw → neutral (num_numbers self) ml →
  ensemble_probabilities tw ml self = (self, Ok (probabilities self)).
Proof. intros Hreach. apply ensemble_neutral, reachable_stored_ok, Hreach. Qed.

Lemma ensemble_probabilities_neutral_witness :
  ∃ self, __init__ (cfg 2) draws_A 1 = Ok self
    ∧ ensemble_probabilities None (Some {[ 1%Z := 1; 2%Z := 1 ]}) self
      = (self, Ok (probabilities self)).
Proof.
  assert (∃ self, __init__ (cfg 2) draws_A 1 = Ok self) as [self Hself]
    by (eexists; vm_compute; reflexivity).
  exists self. split; [exact Hself|].
  assert (num_numbers self = 2%Z) as HN.
  { apply init_Ok_inv in Hself as (N & p & Hc & _ & ->).
    cbn. unfold cfg in Hc. rewrite lookup_singleton_eq in Hc. congruence. }
  apply ensemble_probabilities_neutral.
  - by eapply reachable_init.
  - exact I.
  - rewrite HN. intros i Hi. cbn.
    destruct (decide (i = 1%Z)) as [->|Hne]; [by rewrite lookup_insert_eq|].
    rewrite lookup_insert_ne by done.
    assert (i = 2%Z) as -> by lia. by rewrite lookup_singleton_eq.
Defined.

End ensemble.

(** ** Scoring of candidate sets *)

Section scoring.
Local Open Scope Qc_scope.

Lemma sorted_nil : Py.sorted [] = [].
Proof. reflexivity. Qed.

Lemma list_to_set_sorted (s : list Z) :
  list_to_set (Py.sorted s) =@{gset Z} list_to_set s.
Proof. apply list_to_set_perm_L, merge_sort_Permutation. Qed.

Lemma expected_sum_of_zero (N : Z) : expected_sum_of N 0 = 0.
Proof. unfold expected_sum_of. rewrite Z2Qc_inj_0. ring. Qed.

Lemma expected_sum_of_pos (N k : Z) :
  (0 ≤ N)%Z → (1 ≤ k)%Z → 0 < expected_sum_of N k.
Proof.
  intros HN Hk. unfold expected_sum_of.
  apply Qcmult_pos_pos; [|apply Qc_of_Z_pos; lia].
  apply Qcmult_pos_pos; [apply Qc_of_Z_pos; lia|].
  apply Qcinv_pos, Qc_of_Z_pos. lia.
Qed.

Lemma length_pos_of_ne_nil {A} (s : list A) : s ≠ [] → (1 ≤ Z.of_nat (length s))%Z.
Proof. destruct s; [done|]. cbn [length]. lia. Qed.

Lemma truediv_nonzero (x y : Qc) : y ≠ 0 → Py.truediv x y = Ok (x / y).
Proof. intros. unfold Py.truediv. by rewrite decide_False. Qed.

Lemma truediv_zero (x : Qc) : Py.truediv x 0 = Raise ZeroDivisionError.
Proof. unfold Py.truediv. by rewrite decide_True. Qed.

(** the loop body on an empty candidate set *)
Lemma score_set_nil (N : Z) (probs : gmap Z Qc) (R : gset Z) (w : gmap string Qc) :
  score_set N probs R w [] = Raise ZeroDivisionError.
Proof.
  unfold score_set. rewrite sorted_nil.
  unfold spread_score_of, sum_score_of. cbn [length Z.of_nat].
  rewrite decide_False by lia.
  rewrite expected_sum_of_zero, truediv_zero. reflexivity.
Qed.

Lemma score_set_Ok_ne_nil (N : Z) (probs : gmap Z Qc) (R : gset Z)
    (w : gmap string Qc) (s : list Z) (r : score_record) :
  score_set N probs R w s = Ok r → s ≠ [].
Proof. intros Hr ->. by rewrite score_set_nil in Hr. Qed.

(** a record that was produced holds the results of the assignments *)
Lemma score_set_Ok_inv (N : Z) (probs : gmap Z Qc) (R : gset Z)
    (w : gmap string Qc) (s : list Z) (r : score_record) :
  score_set N probs R w s = Ok r →
  rec_set r = Py.sorted s
  ∧ spread_score_of N (Py.sorted s) = Ok (comp_spread (rec_components r))
  ∧ sum_score_of N (Py.sorted s) = Ok (comp_sum (rec_components r))
  ∧ freq_score_of probs (Py.sorted s) = Ok (comp_frequency (rec_components r))
  ∧ recent_score_of R (Py.sorted s) = Ok (comp_recent (rec_components r))
  ∧ composite w (comp_spread (rec_components r)) (comp_sum (rec_components r))
      (comp_frequency (rec_components r)) (comp_recent (rec_components r))
    = Ok (rec_score r).
Proof.
  unfold score_set.
  destruct (spread_score_of _ _) as [sp|]; [|done].
  destruct (sum_score_of _ _) as [su|]; [|done].
  destruct (freq_score_of _ _) as [fr|]; [|done].
  destruct (recent_score_of _ _) as [re|]; [|done]. cbn.
  destruct (composite _ _ _ _ _) as [fi|] eqn:Hfi; [|done]. cbn.
  by intros [= <-].
Qed.

Lemma score_prediction_sets_Ok_inv (self : IChingScorer) (cands : list (list Z))
    (recent : option (list (list Z))) (weights : option (gmap string Qc))
    (recs : list score_record) :
  (score_prediction_sets cands recent weights self).2 = Ok recs →
  Forall2 (λ s r,
    score_set (num_numbers self) (probabilities self) (recent_numbers_of recent)
      (default default_weights weights) s = Ok r) cands recs.
Proof. apply mapM_Ok_inv. Qed.

(** *** Sum balance *)

Lemma sum_score_of_sorted (N : Z) (s : list Z) :
  (1 ≤ N)%Z → s ≠ [] → sum_score_of N (Py.sorted s) = Ok (sum_balance N s).
Proof.
  intros HN Hs. unfold sum_score_of, sum_balance.
  rewrite length_sorted, sumZ_sorted. cbv zeta.
  rewrite truediv_nonzero; [done|].
  apply not_eq_sym, Qclt_not_eq, expected_sum_of_pos; [lia|].
  by apply length_pos_of_ne_nil.
Qed.

Lemma sum_balance_exact (N : Z) (s : list Z) :
  Qc_of_Z (Py.sumZ s) = expected_sum_of N (Z.of_nat (length s)) →
  sum_balance N s = 1.
Proof.
  intros Heq. unfold sum_balance. cbv zeta. rewrite Heq.
  replace (expected_sum_of N (Z.of_nat (length s))
           - expected_sum_of N (Z.of_nat (length s))) with (Q2Qc 0) by ring.
  rewrite Qcabs_pos by done. unfold Qcdiv. ring.
Qed.

Lemma sum_balance_negative (N : Z) (s : list Z) :
  (1 ≤ N)%Z → s ≠ [] →
  expected_sum_of N (Z.of_nat (length s))
  < Qcabs (Qc_of_Z (Py.sumZ s) - expected_sum_of N (Z.of_nat (length s))) →
  sum_balance N s < 0.
Proof.
  intros HN Hs Hdev. unfold sum_balance. cbv zeta.
  set (e := expected_sum_of N (Z.of_nat (length s))) in *.
  set (d := Qcabs (Qc_of_Z (Py.sumZ s) - e)) in *.
  assert (0 < e) as He
    by (apply expected_sum_of_pos; [lia|by apply length_pos_of_ne_nil]).
  assert (1 < d / e) as Hgt.
  { replace (Q2Qc 1) with (e * / e) by (apply Qcmult_inv_r; by apply not_eq_sym, Qclt_not_eq).
    unfold Qcdiv. apply Qcmult_lt_mono_pos_r; [by apply Qcinv_pos|done]. }
  apply Qclt_minus_iff. apply Qclt_minus_iff in Hgt.
  by replace (0 + - (1 - d / e)) with (d / e + - (1)) by ring.
Qed.

(** C5: for a non-empty candidate set of size k against a configuration
    with N >= 1, the sum-balance score is
    [1 - |actual_sum - (N+1)/2*k| / ((N+1)/2*k)]; it is exactly 1 when the
    actual sum equals the expected sum and negative when the actual sum
    deviates from it by more than the expected sum; and that is the "sum"
    component of every record that [score_prediction_sets] returns. *)
Theorem sum_balance_score (N : Z) (s : list Z) :
  (1 ≤ N)%Z → s ≠ [] →
  let k := Z.of_nat (length s) in
  let expected_sum := Qc_of_Z (N + 1) / Qc_of_Z 2 * Qc_of_Z k in
  let actual_sum := Qc_of_Z (Py.sumZ s) in
  sum_score_of N (Py.sorted s)
  = Ok (1 - Qcabs (actual_sum - expected_sum) / expected_sum)
  ∧ (actual_sum = expected_sum → sum_score_of N (Py.sorted s) = Ok 1)
  ∧ (expected_sum < Qcabs (actual_sum - expected_sum) →
     ∃ v, sum_score_of N (Py.sorted s) = Ok v ∧ v < 0)
  ∧ (∀ self cands recent weights recs,
       num_numbers self = N →
       (score_prediction_sets cands recent weights self).2 = Ok recs →
       Forall2 (λ s r, comp_sum (rec_components r) = sum_balance N s) cands recs).
Proof.
  intros HN Hs k expected_sum actual_sum.
  pose proof (sum_score_of_sorted N s HN Hs) as Hsum.
  split; [exact Hsum|]. split; [|split].
  - intros Heq. rewrite Hsum. f_equal. by apply sum_balance_exact.
  - intros Hdev. exists (sum_balance N s). split; [exact Hsum|].
    by apply sum_balance_negative.
  - intros self cands recent weights recs HNs Hrecs%score_prediction_sets_Ok_inv.
    eapply Forall2_impl; [exact Hrecs|]. intros s' r Hr. cbn in Hr.
    pose proof (score_set_Ok_ne_nil _ _ _ _ _ _ Hr) as Hs'.
    apply score_set_Ok_inv in Hr as (_ & _ & Hsu & _).
    rewrite HNs, sum_score_of_sorted in Hsu by done. congruence.
Qed.

Lemma sum_balance_score_witness :
  sum_score_of 10 (Py.sorted candidate_C) = Ok 1
  ∧ ∃ v, sum_score_of 10 (Py.sorted candidate_far) = Ok v ∧ v < 0.
Proof.
  split.
  - refine (proj1 (proj2 (sum_balance_score 10 candidate_C _ _)) _).
    + lia.
    + done.
    + by apply Qc_is_canon.
  - refine (proj1 (proj2 (proj2 (sum_balance_score 10 candidate_far _ _))) _).
    + lia.
    + done.
    + vm_compute. reflexivity.
Defined.

(** *** Recency *)

Lemma elem_of_foldl_union (draws : list (list Z)) (acc : gset Z) (n : Z) :
  n ∈ foldl (λ acc draw, acc ∪ list_to_set draw) acc draws
  ↔ n ∈ acc ∨ n ∈ concat draws.
Proof.
  revert acc. induction draws as [|d draws IH]; intros acc; cbn [foldl concat].
  - rewrite elem_of_nil. tauto.
  - rewrite IH, elem_of_union, elem_of_list_to_set, elem_of_app. tauto.
Qed.

Lemma elem_of_recent_numbers (draws : list (list Z)) (n : Z) :
  n ∈ recent_numbers_of (Some draws) ↔ n ∈ concat draws.
Proof.
  unfold recent_numbers_of. destruct draws as [|d draws].
  - cbn. rewrite elem_of_empty, elem_of_nil. tauto.
  - cbn [Py.truthy_list]. rewrite elem_of_foldl_union, elem_of_empty. tauto.
Qed.

Lemma size_inter_list_to_set (s : list Z) (R : gset Z) :
  size (list_to_set s ∩ R) = length (filter (λ n, n ∈ R) (remove_dups s)).
Proof.
  rewrite <-(size_list_to_set (C := gset Z)).
  - f_equal. apply set_eq. intros n.
    rewrite elem_of_intersection, !elem_of_list_to_set, list_elem_of_filter.
    rewrite elem_of_remove_dups. tauto.
  - apply NoDup_filter, NoDup_remove_dups.
Qed.

Lemma remove_dups_NoDup (s : list Z) : NoDup s → remove_dups s = s.
Proof.
  induction 1 as [|x s Hx _ IH]; [done|].
  cbn [remove_dups]. case_decide; [done|]. by rewrite IH.
Qed.

Lemma filter_none (P : Z → Prop) `{!∀ x, Decision (P x)} (l : list Z) :
  (∀ x, x ∈ l → ¬ P x) → filter P l = [].
Proof.
  induction l as [|x l IH]; intros HP; [done|].
  rewrite filter_cons_False by (apply HP; by left).
  apply IH. intros y Hy. apply HP. by right.
Qed.

Lemma recent_score_of_sorted (draws : list (list Z)) (s : list Z) :
  s ≠ [] →
  recent_score_of (recent_numbers_of (Some draws)) (Py.sorted s)
  = Ok (1 - distinct_overlap_fraction s draws).
Proof.
  intros Hs. unfold recent_score_of, distinct_overlap_fraction.
  rewrite length_sorted, list_to_set_sorted, size_inter_list_to_set.
  rewrite (list_filter_iff _ (λ n, n ∈ concat draws))
    by (intros n; apply elem_of_recent_numbers).
  destruct (decide (recent_numbers_of (Some draws) ≠ ∅)) as [Hne|Hemp].
  - rewrite truediv_nonzero; [done|].
    apply Qc_of_Z_nonzero. apply length_pos_of_ne_nil in Hs. lia.
  - apply dec_stable in Hemp.
    replace (filter (λ n, n ∈ concat draws) (remove_dups s)) with (@nil Z).
    + cbn [length]. change (Z.of_nat 0) with 0%Z.
      rewrite Z2Qc_inj_0. f_equal; try (unfold Qcdiv; ring).
    + symmetry. apply filter_none. intros n _.
      rewrite <-elem_of_recent_numbers, Hemp. apply not_elem_of_empty.
Qed.

Lemma recent_score_of_none (s : list Z) :
  recent_score_of (recent_numbers_of None) s = Ok 1.
Proof. unfold recent_score_of. cbn. by rewrite decide_False by (by intros []). Qed.

Lemma overlap_fraction_NoDup (s : list Z) (draws : list (list Z)) :
  NoDup s → distinct_overlap_fraction s draws = overlap_fraction s draws.
Proof.
  intros Hnd. unfold distinct_overlap_fraction, overlap_fraction.
  by rewrite remove_dups_NoDup.
Qed.

(** C4: for a non-empty candidate set, when recent draws are supplied the
    recency score is 1 minus the fraction of the set's numbers that appear
    in the union of the recent draws (each number of the candidate sequence
    counted once, which for a set of distinct numbers is the plain
    fraction); when none are supplied it is exactly 1; and that is the
    "recent" component of every record that [score_prediction_sets]
    returns. *)
Theorem recency_score (s : list Z) :
  s ≠ [] →
  (∀ draws,
     recent_score_of (recent_numbers_of (Some draws)) (Py.sorted s)
     = Ok (1 - distinct_overlap_fraction s draws)
     ∧ (NoDup s →
        recent_score_of (recent_numbers_of (Some draws)) (Py.sorted s)
        = Ok (1 - overlap_fraction s draws)))
  ∧ recent_score_of (recent_numbers_of None) (Py.sorted s) = Ok 1
  ∧ (∀ self cands recent weights recs,
       (score_prediction_sets cands recent weights self).2 = Ok recs →
       Forall2 (λ s r,
         comp_recent (rec_components r)
         = match recent with
           | Some draws => 1 - distinct_overlap_fraction s draws
           | None => 1
           end) cands recs).
Proof.
  intros Hs. split; [|split].
  - intros draws. split; [by apply recent_score_of_sorted|].
    intros Hnd. rewrite <-overlap_fraction_NoDup by done.
    by apply recent_score_of_sorted.
  - apply recent_score_of_none.
  - intros self cands recent weights recs Hrecs%score_prediction_sets_Ok_inv.
    eapply Forall2_impl; [exact Hrecs|]. intros s' r Hr. cbn in Hr.
    pose proof (score_set_Ok_ne_nil _ _ _ _ _ _ Hr) as Hs'.
    apply score_set_Ok_inv in Hr as (_ & _ & _ & _ & Hre & _).
    destruct recent as [draws|].
    + rewrite recent_score_of_sorted in Hre by done. congruence.
    + rewrite recent_score_of_none in Hre. congruence.
Qed.

Lemma recency_score_witness :
  recent_score_of (recent_numbers_of (Some recent_E)) (Py.sorted candidate_E)
  = Ok (1 - overlap_fraction candidate_E recent_E)
  ∧ overlap_fraction candidate_E recent_E = Q2Qc (2 # 3).
Proof.
  split.
  - refine (proj2 (proj1 (recency_score candidate_E _) recent_E) _).
    + done.
    + repeat (apply NoDup_cons; split; [rewrite ?elem_of_cons, elem_of_nil; lia|]).
      apply NoDup_nil_2.
  - by apply Qc_is_canon.
Defined.

(** *** Empty candidate sets *)

(** C7, as amended: on an empty candidate set [score] fails with the
    [StatisticsError] of [statistics.mean], and [score_prediction_sets]
    fails with [ZeroDivisionError] in the sum-balance division (expected sum
    0) as soon as the candidate sets before the empty one have been scored;
    either way no value or record is returned, so whatever is returned comes
    from non-empty candidate sets only. *)
Theorem empty_candidate_set_fails (self : IChingScorer) :
  score [] self = (self, Raise StatisticsError)
  ∧ (∀ pre post recent weights,
       Forall (λ s, is_Ok (score_set (num_numbers self) (probabilities self)
                             (recent_numbers_of recent)
                             (default default_weights weights) s)) pre →
       score_prediction_sets (pre ++ [] :: post) recent weights self
       = (self, Raise ZeroDivisionError))
  ∧ (∀ cands recent weights,
       [] ∈ cands → raises (score_prediction_sets cands recent weights self).2)
  ∧ (∀ number_set v, (score number_set self).2 = Ok v → number_set ≠ [])
  ∧ (∀ cands recent weights recs,
       (score_prediction_sets cands recent weights self).2 = Ok recs →
       Forall (λ s, s ≠ []) cands).
Proof.
  split; [reflexivity|]. split; [|split; [|split]].
  - intros pre post recent weights Hpre. unfold score_prediction_sets.
    f_equal. apply mapM_Raise_at; [done|]. apply score_set_nil.
  - intros cands recent weights Hin. apply mapM_raises, Exists_exists.
    exists []. split; [done|]. exists ZeroDivisionError. apply score_set_nil.
  - by intros number_set v Hv ->.
  - intros cands recent weights recs Hrecs%score_prediction_sets_Ok_inv.
    induction Hrecs as [|s r cands recs Hr _ IH]; constructor; [|done].
    by eapply score_set_Ok_ne_nil.
Qed.

Lemma empty_candidate_set_fails_witness :
  ∃ self, __init__ (cfg 10) draws_A 1 = Ok self
    ∧ score_prediction_sets ([] :: candidate_E :: []) None None self
      = (self, Raise ZeroDivisionError).
Proof.
  assert (∃ self, __init__ (cfg 10) draws_A 1 = Ok self) as [self Hself]
    by (eexists; vm_compute; reflexivity).
  exists self. split; [exact Hself|].
  refine (proj1 (proj2 (empty_candidate_set_fails self))
            [] (candidate_E :: []) None None _).
  apply Forall_nil_2.
Defined.

(** C7, as stated, fails for [score]: the failure on an empty candidate set
    is the [StatisticsError] of [statistics.mean], not a division by zero. *)
Lemma score_empty_set_not_zero_division :
  (self ← __init__ (cfg 5) draws_B 0; (score [] self).2) = Raise StatisticsError
  ∧ (self ← __init__ (cfg 5) draws_B 0; (score [] self).2) ≠ Raise ZeroDivisionError.
Proof.
  assert ((self ← __init__ (cfg 5) draws_B 0; (score [] self).2)
          = Raise StatisticsError) as H by (vm_compute; reflexivity).
  split; [exact H|]. by rewrite H.
Qed.

(** *** Component weights *)

Lemma composite_missing_key (w : gmap string Qc) (sp su fr re : Qc) :
  (∃ key, key ∈ weight_keys ∧ w !! key = None) →
  ∃ key, key ∈ weight_keys ∧ w !! key = None
         ∧ composite w sp su fr re = Raise (KeyError (KStr key)).
Proof.
  intros (key & Hkey & Hnone). unfold composite, Py.getitem_str, weight_keys in *.
  destruct (w !! "spread") as [w1|] eqn:H1;
    [|exists "spread"; split; [by repeat constructor|done]].
  destruct (w !! "sum") as [w2|] eqn:H2;
    [|exists "sum"; split; [by repeat constructor|done]].
  destruct (w !! "frequency") as [w3|] eqn:H3;
    [|exists "frequency"; split; [by repeat constructor|done]].
  destruct (w !! "recent") as [w4|] eqn:H4;
    [|exists "recent"; split; [by repeat constructor|done]].
  exfalso. rewrite !elem_of_cons, elem_of_nil in Hkey.
  destruct Hkey as [->|[->|[->|[->|[]]]]]; congruence.
Qed.

Lemma composite_all_keys (w : gmap string Qc) (sp su fr re : Qc) :
  (∀ key, key ∈ weight_keys → is_Some (w !! key)) →
  is_Ok (composite w sp su fr re).
Proof.
  intros Hall. unfold composite, Py.getitem_str.
  destruct (Hall "spread") as [w1 ->]; [by repeat constructor|].
  destruct (Hall "sum") as [w2 ->]; [by repeat constructor|].
  destruct (Hall "frequency") as [w3 ->]; [by repeat constructor|].
  destruct (Hall "recent") as [w4 ->]; [by repeat constructor|].
  by eexists.
Qed.

Lemma score_set_missing_key (N : Z) (probs : gmap Z Qc) (R : gset Z)
    (w w' : gmap string Qc) (s : list Z) :
  (∃ key, key ∈ weight_keys ∧ w !! key = None) →
  is_Ok (score_set N probs R w' s) →
  ∃ key, key ∈ weight_keys ∧ w !! key = None
         ∧ score_set N probs R w s = Raise (KeyError (KStr key)).
Proof.
  intros Hmiss [r (_ & Hsp & Hsu & Hfr & Hre & _)%score_set_Ok_inv].
  destruct (composite_missing_key w (comp_spread (rec_components r))
              (comp_sum (rec_components r)) (comp_frequency (rec_components r))
              (comp_recent (rec_components r)) Hmiss) as (key & Hkey & Hnone & Hc).
  exists key. split; [done|]. split; [done|].
  unfold score_set. rewrite Hsp, Hsu, Hfr, Hre. cbn. by rewrite Hc.
Qed.

Lemma score_set_missing_key_raises (N : Z) (probs : gmap Z Qc) (R : gset Z)
    (w : gmap string Qc) (s : list Z) :
  (∃ key, key ∈ weight_keys ∧ w !! key = None) →
  raises (score_set N probs R w s).
Proof.
  intros Hmiss. destruct (score_set N probs R w s) as [r|e] eqn:Hr; [|by eexists].
  destruct (score_set_missing_key N probs R w w s Hmiss) as (key & _ & _ & Hk).
  - by eexists.
  - congruence.
Qed.

(** C10: when the caller's component weights lack one of the keys
    "spread", "sum", "frequency", "recent", the composite raises [KeyError]
    on a missing key; so [score_prediction_sets] returns no record at all
    with such weights, and raises that [KeyError] on the first candidate set
    that the default weights would have scored.  The default weights, all
    0.25, are what an omitted weights argument stands for. *)
Theorem missing_weight_key_fails (w : gmap string Qc) :
  (∃ key, key ∈ weight_keys ∧ w !! key = None) →
  (∀ sp su fr re,
     ∃ key, key ∈ weight_keys ∧ w !! key = None
            ∧ composite w sp su fr re = Raise (KeyError (KStr key)))
  ∧ (∀ self cands recent recs,
       (score_prediction_sets cands recent (Some w) self).2 = Ok recs →
       cands = [] ∧ recs = [])
  ∧ (∀ self s rest recent,
       is_Ok (score_set (num_numbers self) (probabilities self)
                (recent_numbers_of recent) default_weights s) →
       ∃ key, key ∈ weight_keys ∧ w !! key = None
              ∧ score_prediction_sets (s :: rest) recent (Some w) self
                = (self, Raise (KeyError (KStr key))))
  ∧ (∀ self cands recent,
       score_prediction_sets cands recent None self
       = score_prediction_sets cands recent (Some default_weights) self)
  ∧ (∀ key, key ∈ weight_keys → default_weights !! key = Some quarter).
Proof.
  intros Hmiss. split; [|split; [|split; [|split]]].
  - intros sp su fr re. by apply composite_missing_key.
  - intros self cands recent recs Hrecs%score_prediction_sets_Ok_inv.
    destruct Hrecs as [|s r cands recs Hr _]; [done|]. cbn in Hr.
    destruct (score_set_missing_key_raises (num_numbers self) (probabilities self)
                (recent_numbers_of recent) w s Hmiss) as [e He].
    congruence.
  - intros self s rest recent Hok.
    destruct (score_set_missing_key _ _ _ w _ s Hmiss Hok)
      as (key & Hkey & Hnone & Hr).
    exists key. split; [done|]. split; [done|].
    unfold score_prediction_sets. f_equal.
    change (default default_weights (Some w)) with w.
    by rewrite mapM_cons, Hr.
  - done.
  - intros key Hkey. unfold weight_keys in Hkey.
    rewrite !elem_of_cons, elem_of_nil in Hkey.
    by destruct Hkey as [->|[->|[->|[->|[]]]]].
Qed.

Lemma missing_weight_key_fails_witness :
  ∃ key, key ∈ weight_keys ∧ delete "sum" default_weights !! key = None
         ∧ composite (delete "sum" default_weights) 1 1 1 1
           = Raise (KeyError (KStr key)).
Proof.
  refine (proj1 (missing_weight_key_fails (delete "sum" default_weights) _) 1 1 1 1).
  exists "sum". split; [by repeat constructor|apply lookup_delete_eq].
Defined.

(** The same on the object of Scenario A: weights without "sum", and the
    empty weights mapping, which is not replaced by the defaults. *)
Example weights_without_sum_example :
  (self ← __init__ (cfg 10) draws_A 1;
   (score_prediction_sets (candidate_C :: []) None
      (Some (delete "sum" default_weights)) self).2)
  = Raise (KeyError (KStr "sum"))
  ∧ (self ← __init__ (cfg 10) draws_A 1;
     (score_prediction_sets (candidate_C :: []) None (Some ∅) self).2)
    = Raise (KeyError (KStr "spread")).
Proof. split; vm_compute; reflexivity. Qed.

End scoring.

(** * Further properties *)

(** ** The ensemble as a formula *)

Section ensemble_formula.
Local Open Scope Qc_scope.

Lemma apply_weights_factor (w : option (gmap Z Qc)) (d : gmap Z Qc) (k : Z) (v : Qc) :
  d !! k = Some v → apply_weights w d k = Ok (<[k := v * factor w k]> d).
Proof.
  intros Hv. unfold apply_weights, factor. destruct w as [m|].
  - destruct (Py.truthy_dict (Some m)).
    + unfold Py.imul, Py.getitem. by rewrite Hv.
    + by rewrite Qcmult_1_r, insert_id.
  - by rewrite Qcmult_1_r, insert_id.
Qed.

Lemma blend_step (tw ml : option (gmap Z Qc)) (d : gmap Z Qc) (k : Z) (v : Qc) :
  d !! k = Some v →
  (combined ← apply_weights tw d k; apply_weights ml combined k)
  = Ok (<[k := v * factor tw k * factor ml k]> d).
Proof.
  intros Hv. rewrite (apply_weights_factor tw d k v Hv). cbn.
  rewrite (apply_weights_factor ml _ k (v * factor tw k))
    by apply lookup_insert_eq.
  by rewrite insert_insert_eq.
Qed.

Lemma foldlM_blend (tw ml : option (gmap Z Qc)) (ks : list Z) (d : gmap Z Qc) :
  NoDup ks → (∀ k, k ∈ ks → is_Some (d !! k)) →
  ∃ d', Py.foldlM
          (λ combined i,
             combined ← apply_weights tw combined i; apply_weights ml combined i)
          d ks = Ok d'
        ∧ ∀ i, d' !! i
               = if decide (i ∈ ks)
                 then (λ v, v * factor tw i * factor ml i) <$> d !! i
                 else d !! i.
Proof.
  intros Hnd. revert d. induction Hnd as [|k ks Hk Hnd IH]; intros d Hdom.
  - exists d. split; [done|]. intros i.
    destruct (decide (i ∈ [])) as [Hin|_]; [|done]. by apply elem_of_nil in Hin.
  - destruct (Hdom k) as [v Hv]; [by left|].
    destruct (IH (<[k := v * factor tw k * factor ml k]> d)) as (d' & Hfold & Hd').
    { intros k' Hk'. destruct (decide (k' = k)) as [->|Hne].
      - rewrite lookup_insert_eq. by eexists.
      - rewrite lookup_insert_ne by done. apply Hdom. by right. }
    exists d'. split.
    + cbn [Py.foldlM]. by rewrite (blend_step tw ml d k v Hv).
    + intros i. rewrite Hd'.
      destruct (decide (i ∈ ks)) as [Hin|Hnin];
        destruct (decide (i ∈ k :: ks)) as [Hin'|Hnin'].
      * rewrite lookup_insert_ne; [done|]. by intros ->.
      * exfalso. apply Hnin'. by right.
      * apply elem_of_cons in Hin' as [->|?]; [|done].
        by rewrite lookup_insert_eq, Hv.
      * rewrite lookup_insert_ne; [done|]. intros ->. apply Hnin'. by left.
Qed.

Lemma NoDup_keys {V} (d : gmap Z V) : NoDup (Py.keys d).
Proof. apply NoDup_fst_map_to_list. Qed.

Lemma ensemble_unfold (tw ml : option (gmap Z Qc)) (self : IChingScorer) :
  ensemble_probabilities tw ml self
  = (self,
     Py.dict_comprehension
       (λ _ v, Py.truediv v (Py.sum (Py.values (blended tw ml (probabilities self)))))
       (blended tw ml (probabilities self))).
Proof.
  unfold ensemble_probabilities. f_equal.
  destruct (foldlM_blend tw ml (Py.keys (probabilities self)) (probabilities self))
    as (d' & Hfold & Hd').
  - apply NoDup_keys.
  - intros k Hk%elem_of_keys. by apply elem_of_dom.
  - rewrite Hfold. cbn.
    assert (d' = blended tw ml (probabilities self)) as ->; [|done].
    apply map_eq. intros i. rewrite Hd'. unfold blended.
    rewrite map_lookup_imap.
    destruct (decide (i ∈ Py.keys (probabilities self))) as [Hin|Hnin].
    + by destruct (probabilities self !! i).
    + destruct (probabilities self !! i) as [v|] eqn:Hv; [|done].
      exfalso. apply Hnin, elem_of_keys, elem_of_dom. by eexists.
Qed.

Lemma dom_blended (tw ml : option (gmap Z Qc)) (probs : gmap Z Qc) :
  dom (blended tw ml probs) = dom probs.
Proof.
  apply set_eq. intros i. rewrite !elem_of_dom. unfold blended.
  rewrite map_lookup_imap. by destruct (probs !! i).
Qed.

Lemma blended_empty_iff (tw ml : option (gmap Z Qc)) (probs : gmap Z Qc) :
  blended tw ml probs = ∅ ↔ probs = ∅.
Proof. by rewrite <-!dom_empty_iff_L, dom_blended. Qed.

Lemma lookup_blended (tw ml : option (gmap Z Qc)) (probs : gmap Z Qc) (i : Z) :
  blended tw ml probs !! i = (λ v, v * factor tw i * factor ml i) <$> probs !! i.
Proof. unfold blended. rewrite map_lookup_imap. by destruct (probs !! i). Qed.

Lemma blended_comm (tw ml : option (gmap Z Qc)) (probs : gmap Z Qc) :
  blended tw ml probs = blended ml tw probs.
Proof.
  apply map_eq. intros i. rewrite !lookup_blended.
  destruct (probs !! i) as [v|]; [|done]. cbn. f_equal. ring.
Qed.

End ensemble_formula.

Section ensemble_outcomes.
Local Open Scope Qc_scope.

Lemma sum_all_zero (xs : list Qc) : Forall (λ v, v = 0) xs → Py.sum xs = 0.
Proof.
  induction 1 as [|x xs -> _ IH]; [done|]. rewrite sum_cons, IH. ring.
Qed.

Lemma elem_of_values {V} (d : gmap Z V) (v : V) :
  v ∈ Py.values d ↔ ∃ i, d !! i = Some v.
Proof.
  unfold Py.values. rewrite list_elem_of_fmap. split.
  - intros [[i v'] [-> Hin%elem_of_map_to_list]]. by exists i.
  - intros [i Hi]. exists (i, v). split; [done|]. by apply elem_of_map_to_list.
Qed.

Lemma reachable_dom (self : IChingScorer) (i : Z) :
  reachable self → i ∈ dom (probabilities self) ↔ (1 ≤ i ≤ num_numbers self)%Z.
Proof.
  intros [[HN Hemp]|[_ [Hdom _]]]%reachable_stored_ok.
  - rewrite Hemp, dom_empty_L, elem_of_empty. lia.
  - apply Hdom.
Qed.

Lemma init_fields (c : gmap string Z) (draws : list (list Z)) (s : Qc)
    (self : IChingScorer) :
  __init__ c draws s = Ok self →
  config self = c
  ∧ c !! "num_lotto_numbers" = Some (num_numbers self)
  ∧ historical_draws self = draws
  ∧ smoothing self = s
  ∧ frequencies self = _compute_frequencies (num_numbers self) draws.
Proof. by intros (N & p & Hc & _ & ->)%init_Ok_inv. Qed.

Lemma stored_ok_nonempty (self : IChingScorer) :
  stored_ok self → (1 ≤ num_numbers self)%Z → probabilities self ≠ ∅.
Proof.
  intros [[HN _]|[_ [Hdom _]]] HN1 Hemp; [lia|].
  rewrite Hemp in Hdom. apply (not_elem_of_empty (C := gset Z) 1%Z).
  rewrite <-(dom_empty_L (M := gmap Z) (A := Qc)). apply Hdom. lia.
Qed.

(** X1: whenever the ensemble returns a mapping for a non-empty stored mapping,
    that mapping has the keys of the stored one, gives each number its stored
    probability times its two multipliers divided by the total of these
    products, and sums to exactly one. *)
Theorem ensemble_probabilities_normalised
    (tw ml : option (gmap Z Qc)) (self : IChingScorer) (p : gmap Z Qc) :
  (ensemble_probabilities tw ml self).2 = Ok p →
  probabilities self ≠ ∅ →
  let total := Py.sum (Py.values (blended tw ml (probabilities self))) in
  total ≠ 0
  ∧ dom p = dom (probabilities self)
  ∧ (∀ i v, probabilities self !! i = Some v →
            p !! i = Some (v * factor tw i * factor ml i / total))
  ∧ Py.sum (Py.values p) = 1.
Proof.
  intros Hres Hne total. rewrite ensemble_unfold in Hres. cbn [snd] in Hres.
  fold total in Hres.
  destruct (decide (total = 0)) as [H0|Hnz].
  - rewrite H0, dict_comprehension_div_zero in Hres; [done|].
    by rewrite blended_empty_iff.
  - rewrite dict_comprehension_div in Hres by done. injection Hres as <-.
    split; [done|]. split; [|split].
    + by rewrite dom_fmap_L, dom_blended.
    + intros i v Hv. by rewrite lookup_fmap, lookup_blended, Hv.
    + rewrite sum_values_div. fold total. by field.
Qed.

Lemma ensemble_probabilities_normalised_witness :
  ∃ self p, __init__ (cfg 5) draws_B 1 = Ok self
    ∧ (ensemble_probabilities (Some double_one) None self).2 = Ok p
    ∧ Py.sum (Py.values p) = 1.
Proof.
  assert (∃ self, __init__ (cfg 5) draws_B 1 = Ok self) as [self Hself]
    by (eexists; vm_compute; reflexivity).
  assert (∃ p, (self ← __init__ (cfg 5) draws_B 1;
                (ensemble_probabilities (Some double_one) None self).2) = Ok p)
    as [p Hp] by (eexists; vm_compute; reflexivity).
  rewrite Hself in Hp. cbn in Hp.
  exists self, p. split; [exact Hself|]. split; [exact Hp|].
  refine (proj2 (proj2 (proj2
    (ensemble_probabilities_normalised (Some double_one) None self p Hp _)))).
  apply stored_ok_nonempty; [by eapply init_stored_ok|].
  pose proof (init_fields _ _ _ _ Hself) as (_ & HN & _).
  unfold cfg in HN. rewrite lookup_singleton_eq in HN. injection HN as <-. lia.
Defined.

(** X2: the two weighting arguments can be exchanged: temporal weights given as
    model predictions and the reverse produce the same outcome. *)
Theorem ensemble_probabilities_comm
    (tw ml : option (gmap Z Qc)) (self : IChingScorer) :
  ensemble_probabilities tw ml self = ensemble_probabilities ml tw self.
Proof. rewrite !ensemble_unfold. by rewrite (blended_comm tw ml). Qed.

(** X3: on an object with at least one number, a weighting argument that gives 0
    to every number of the range makes the renormalisation divide by zero:
    the ensemble raises [ZeroDivisionError], whatever the other argument. *)
Theorem ensemble_probabilities_zero_weights
    (d : gmap Z Qc) (ml : option (gmap Z Qc)) (self : IChingScorer) :
  reachable self → (1 ≤ num_numbers self)%Z → all_zero (num_numbers self) d →
  ensemble_probabilities (Some d) ml self = (self, Raise ZeroDivisionError)
  ∧ ensemble_probabilities ml (Some d) self = (self, Raise ZeroDivisionError).
Proof.
  intros Hreach HN Hzero.
  assert (ensemble_probabilities (Some d) ml self = (self, Raise ZeroDivisionError))
    as Hfirst;
    [|split; [done|by rewrite ensemble_unfold, (blended_comm ml), <-ensemble_unfold]].
  rewrite ensemble_unfold. f_equal.
  assert (d ≠ ∅) as Hd.
  { intros ->. specialize (Hzero 1%Z ltac:(lia)). by rewrite lookup_empty in Hzero. }
  rewrite sum_all_zero.
  - apply dict_comprehension_div_zero. rewrite blended_empty_iff.
    apply stored_ok_nonempty; [by apply reachable_stored_ok|done].
  - apply Forall_forall. intros v [i Hi]%elem_of_values.
    rewrite lookup_blended in Hi.
    destruct (probabilities self !! i) as [q|] eqn:Hq; [|done].
    injection Hi as <-. rewrite bool_decide_eq_true_2 by done. unfold Py.get.
    rewrite (Hzero i); [cbn; ring|].
    apply (reachable_dom self i Hreach), elem_of_dom. by eexists.
Qed.

Lemma ensemble_probabilities_zero_weights_witness :
  ∃ self, __init__ (cfg 5) draws_B 1 = Ok self
    ∧ ensemble_probabilities (Some (zeros 5)) None self
      = (self, Raise ZeroDivisionError).
Proof.
  assert (∃ self, __init__ (cfg 5) draws_B 1 = Ok self) as [self Hself]
    by (eexists; vm_compute; reflexivity).
  exists self. split; [exact Hself|].
  pose proof (init_fields _ _ _ _ Hself) as (_ & HN & _).
  unfold cfg in HN. rewrite lookup_singleton_eq in HN. injection HN as HN.
  refine (proj1 (ensemble_probabilities_zero_weights (zeros 5) None self _ _ _)).
  - by eapply reachable_init.
  - lia.
  - rewrite <-HN. intros i Hi. unfold zeros.
    rewrite lookup_dict_from_keys, decide_True; [done|].
    apply elem_of_range. lia.
Defined.




End ensemble_outcomes.

(** ** The constructor and the stored probabilities *)

Section stored_probabilities.
Local Open Scope Qc_scope.

Lemma lookup_weighted_of (freqs : gmap Z Z) (s : Qc) (N i : Z) :
  weighted_of freqs s N !! i
  = if decide (1 ≤ i ≤ N)%Z then Some (weight freqs s i) else None.
Proof.
  unfold weighted_of. rewrite lookup_dict_from_keys.
  destruct (decide (i ∈ Py.range 1 (N + 1))) as [Hin|Hnin];
    rewrite elem_of_range in *.
  - by rewrite decide_True by lia.
  - by rewrite decide_False by lia.
Qed.

Lemma frequencies_no_numbers (N : Z) (draws : list (list Z)) :
  (N ≤ 0)%Z → _compute_frequencies N draws = ∅.
Proof.
  intros HN. apply map_eq. intros i.
  rewrite lookup_frequencies, lookup_empty. by rewrite decide_False by lia.
Qed.

(** what a successful construction stored, for a non-empty range *)
Lemma init_probabilities (c : gmap string Z) (draws : list (list Z)) (s : Qc)
    (self : IChingScorer) :
  __init__ c draws s = Ok self → (1 ≤ num_numbers self)%Z →
  let N := num_numbers self in
  let total := total_of (_compute_frequencies N draws) s N in
  total ≠ 0
  ∧ probabilities self
    = (λ v, v / total) <$> weighted_of (_compute_frequencies N draws) s N.
Proof.
  intros (N & p & Hc & Hcalc & ->)%init_Ok_inv HN. cbn in HN. cbn.
  destruct (decide (total_of (_compute_frequencies N draws) s N = 0)) as [H0|Hnz].
  - rewrite calculate_probabilities_zero in Hcalc by done. done.
  - rewrite calculate_probabilities_nonzero in Hcalc by done.
    injection Hcalc as <-. done.
Qed.

(** X5: the constructor fails in two ways only: [KeyError] when the
    configuration has no "num_lotto_numbers", and [ZeroDivisionError] when
    the range is not empty and the total weight is zero.  Otherwise it
    returns an object holding its three arguments as given and the
    frequencies of the draws; a range that is empty (N <= 0) is accepted and
    gives empty frequencies and probabilities. *)
Theorem init_outcomes (c : gmap string Z) (draws : list (list Z)) (s : Qc) :
  (∀ e, __init__ c draws s = Raise e →
        (e = KeyError (KStr "num_lotto_numbers") ∧ c !! "num_lotto_numbers" = None)
        ∨ (e = ZeroDivisionError
           ∧ ∃ N, c !! "num_lotto_numbers" = Some N ∧ (1 ≤ N)%Z
                  ∧ total_of (_compute_frequencies N draws) s N = 0))
  ∧ (∀ self, __init__ c draws s = Ok self →
        config self = c
        ∧ c !! "num_lotto_numbers" = Some (num_numbers self)
        ∧ historical_draws self = draws
        ∧ smoothing self = s
        ∧ frequencies self = _compute_frequencies (num_numbers self) draws
        ∧ ((num_numbers self ≤ 0)%Z → frequencies self = ∅ ∧ probabilities self = ∅))
  ∧ (∀ N, c !! "num_lotto_numbers" = Some N → (N ≤ 0)%Z →
        is_Ok (__init__ c draws s)).
Proof.
  split; [|split].
  - intros e He. destruct (c !! "num_lotto_numbers") as [N|] eqn:Hc.
    + right. rewrite (init_unfold _ _ _ _ Hc) in He.
      destruct (decide (N ≤ 0)%Z) as [HN|HN].
      { by rewrite calculate_probabilities_no_numbers in He. }
      destruct (decide (total_of (_compute_frequencies N draws) s N = 0)) as [H0|Hnz].
      * rewrite calculate_probabilities_zero in He by (done || cbn; lia).
        injection He as <-. split; [done|]. exists N. repeat split; [lia..|done].
      * by rewrite calculate_probabilities_nonzero in He.
    + left. rewrite init_missing_key in He by done. by injection He as <-.
  - intros self Hself.
    pose proof (init_fields _ _ _ _ Hself) as (H1 & H2 & H3 & H4 & H5).
    repeat (split; [done|]). intros HN. split.
    + rewrite H5. by apply frequencies_no_numbers.
    + by destruct (init_stored_ok _ _ _ _ Hself) as [[_ ?]|[? _]]; [|lia].
  - intros N Hc HN. rewrite (init_unfold _ _ _ _ Hc).
    rewrite calculate_probabilities_no_numbers by done. by eexists.
Qed.

Lemma init_outcomes_witness :
  is_Ok (__init__ (cfg 0) draws_A 1)
  ∧ __init__ ∅ draws_A 1 = Raise (KeyError (KStr "num_lotto_numbers")).
Proof.
  split.
  - refine (proj2 (proj2 (init_outcomes (cfg 0) draws_A 1)) 0%Z _ _).
    + reflexivity.
    + lia.
  - destruct (__init__ ∅ draws_A 1) as [self|e] eqn:He; [done|].
    destruct (proj1 (init_outcomes ∅ draws_A 1) e He) as [[-> _]|[_ (N & HN & _)]];
      [done|]. by rewrite lookup_empty in HN.
Defined.

Lemma sum_elem_le (xs : list Qc) (x : Qc) :
  Forall (λ v, 0 ≤ v) xs → x ∈ xs → x ≤ Py.sum xs.
Proof.
  intros Hall Hin. induction Hall as [|y xs Hy Hall IH]; [by apply elem_of_nil in Hin|].
  rewrite sum_cons. apply elem_of_cons in Hin as [->|Hin].
  - rewrite <-(Qcplus_0_r y) at 1. apply Qcplus_le_mono_l. by apply sum_nonneg.
  - rewrite <-(Qcplus_0_l x). apply Qcplus_le_compat; [done|by apply IH].
Qed.

Lemma Qcdiv_unit (w t : Qc) : 0 ≤ w → w ≤ t → 0 < t → 0 ≤ w / t ∧ w / t ≤ 1.
Proof.
  intros Hw Hwt Ht. pose proof (Qcinv_pos t Ht) as Hinv. unfold Qcdiv. split.
  - by apply Qcmult_nonneg_nonneg; [|apply Qclt_le_weak].
  - rewrite <-(Qcmult_inv_r t) by (by apply not_eq_sym, Qclt_not_eq).
    by apply Qcmult_le_mono_nonneg_r; [apply Qclt_le_weak|].
Qed.



Lemma total_of_nonneg (N : Z) (draws : list (list Z)) (s : Qc) :
  0 ≤ s → 0 ≤ total_of (_compute_frequencies N draws) s N.
Proof.
  intros Hs. unfold total_of. apply sum_nonneg.
  apply Forall_fmap, Forall_forall. intros i Hi%elem_of_range.
  apply weight_nonneg; [lia|done].
Qed.

Lemma weight_le_total (N : Z) (draws : list (list Z)) (s : Qc) (i : Z) :
  0 ≤ s → (1 ≤ i ≤ N)%Z →
  weight (_compute_frequencies N draws) s i
  ≤ total_of (_compute_frequencies N draws) s N.
Proof.
  intros Hs Hi. unfold total_of. apply sum_elem_le.
  - apply Forall_fmap, Forall_forall. intros j Hj%elem_of_range.
    apply weight_nonneg; [lia|done].
  - apply list_elem_of_fmap. exists i. split; [done|]. apply elem_of_range. lia.
Qed.

(** X6: on a constructed object with a non-empty range, the probability of each
    number of the range is its occurrence count plus the smoothing, times its
    five-element modifier, divided by the total of these products. *)
Theorem probabilities_formula (c : gmap string Z) (draws : list (list Z)) (s : Qc)
    (self : IChingScorer) (i : Z) :
  __init__ c draws s = Ok self →
  (1 ≤ i ≤ num_numbers self)%Z →
  let N := num_numbers self in
  let total := Py.sum ((λ j, (Qc_of_Z (occurrences j draws) + s) * Qc_of_Z (modifier j))
                       <$> Py.range 1 (N + 1)) in
  total ≠ 0
  ∧ probabilities self !! i
    = Some ((Qc_of_Z (occurrences i draws) + s) * Qc_of_Z (modifier i) / total).
Proof.
  intros Hself Hi N total.
  destruct (init_probabilities _ _ _ _ Hself) as [Hnz Hp]; [lia|].
  assert (total_of (_compute_frequencies N draws) s N = total) as Htotal.
  { unfold total_of, total. f_equal. apply list_fmap_ext.
    intros _ j Hj%list_elem_of_lookup_2%elem_of_range.
    unfold weight. by rewrite get_frequencies by lia. }
  fold N in Hnz, Hp. rewrite Htotal in Hnz, Hp. split; [done|].
  rewrite Hp, lookup_fmap, lookup_weighted_of, decide_True by done. cbn.
  unfold weight. by rewrite get_frequencies by done.
Qed.

Lemma probabilities_formula_witness :
  ∃ self, __init__ (cfg 5) draws_B 0 = Ok self
    ∧ probabilities self !! 5%Z
      = Some ((Qc_of_Z (occurrences 5 draws_B) + 0) * Qc_of_Z (modifier 5)
              / Py.sum ((λ j, (Qc_of_Z (occurrences j draws_B) + 0) * Qc_of_Z (modifier j))
                        <$> Py.range 1 (5 + 1))).
Proof.
  assert (∃ self, __init__ (cfg 5) draws_B 0 = Ok self) as [self Hself]
    by (eexists; vm_compute; reflexivity).
  exists self. split; [exact Hself|].
  pose proof (init_fields _ _ _ _ Hself) as (_ & HN & _).
  unfold cfg in HN. rewrite lookup_singleton_eq in HN. injection HN as HN.
  pose proof (probabilities_formula (cfg 5) draws_B 0 self 5 Hself) as T.
  rewrite <-HN in T. exact (proj2 (T ltac:(lia))).
Defined.

(** a stored probability of a constructed object, as a quotient *)
Lemma init_lookup (c : gmap string Z) (draws : list (list Z)) (s : Qc)
    (self : IChingScorer) (i : Z) (v : Qc) :
  __init__ c draws s = Ok self → 0 ≤ s →
  probabilities self !! i = Some v →
  let N := num_numbers self in
  let total := total_of (_compute_frequencies N draws) s N in
  (1 ≤ i ≤ N)%Z ∧ 0 < total
  ∧ v = weight (_compute_frequencies N draws) s i / total.
Proof.
  intros Hself Hs Hv N total.
  destruct (decide (N ≤ 0)%Z) as [HN|HN].
  { destruct (init_stored_ok _ _ _ _ Hself) as [[_ Hemp]|[? _]]; [|unfold N in *; lia].
    by rewrite Hemp, lookup_empty in Hv. }
  destruct (init_probabilities _ _ _ _ Hself) as [Hnz Hp]; [unfold N in *; lia|].
  fold N in Hnz, Hp. fold total in Hnz, Hp.
  assert (0 < total) as Hpos.
  { destruct (Qclt_le_dec 0 total) as [?|Hle]; [done|].
    exfalso. apply Hnz, Qcle_antisym; [done|]. by apply total_of_nonneg. }
  revert Hv. rewrite Hp, lookup_fmap, lookup_weighted_of.
  destruct (decide (1 ≤ i ≤ N)%Z); [|done]. cbn. by intros [= <-].
Qed.

Lemma init_unit_valued (c : gmap string Z) (draws : list (list Z)) (s : Qc)
    (self : IChingScorer) :
  __init__ c draws s = Ok self → 0 ≤ s → unit_valued (probabilities self).
Proof.
  intros Hself Hs i v Hv.
  destruct (init_lookup _ _ _ _ _ _ Hself Hs Hv) as (Hi & Hpos & ->).
  apply Qcdiv_unit; [by apply weight_nonneg|by apply weight_le_total|done].
Qed.





(** X9: a recalculation does not depend on the mapping that is stored: the call
    gives the same outcome whatever the stored probabilities are, so that
    repeating a call (with the same argument) changes nothing more. *)
Theorem calculate_probabilities_idempotent (o : option Qc) (self : IChingScorer) :
  (∀ p, (calculate_probabilities o (set_probabilities p self)).2
        = (calculate_probabilities o self).2)
  ∧ calculate_probabilities o (calculate_probabilities o self).1
    = calculate_probabilities o self.
Proof.
  split.
  - intros p. by apply calculate_probabilities_reads.
  - rewrite (calculate_probabilities_unfold o self). cbv zeta.
    destruct (Py.dict_comprehension _ _) as [p|e] eqn:Hp; cbn [fst].
    + rewrite calculate_probabilities_unfold. cbv zeta.
      cbn [frequencies num_numbers smoothing set_probabilities].
      by rewrite Hp.
    + rewrite calculate_probabilities_unfold. cbv zeta. by rewrite Hp.
Qed.

End stored_probabilities.

(** ** Candidate sets: order, extremes and records *)

Section candidate_sets.
Local Open Scope Qc_scope.

Lemma StronglySorted_sorted (s : list Z) : StronglySorted Z.le (Py.sorted s).
Proof. apply StronglySorted_merge_sort; apply _. Qed.

Lemma sorted_Permutation (s : list Z) : Py.sorted s ≡ₚ s.
Proof. apply merge_sort_Permutation. Qed.

Lemma sorted_Permutation_eq (s s' : list Z) : s ≡ₚ s' → Py.sorted s = Py.sorted s'.
Proof.
  intros Hp. apply (StronglySorted_unique Z.le); [apply StronglySorted_sorted..|].
  by rewrite !sorted_Permutation.
Qed.

Lemma elem_of_sorted (s : list Z) (x : Z) : x ∈ Py.sorted s ↔ x ∈ s.
Proof. by rewrite sorted_Permutation. Qed.

Lemma StronglySorted_head_le (l : list Z) (lo : Z) :
  StronglySorted Z.le l → l !! 0%nat = Some lo → Forall (λ x, (lo ≤ x)%Z) l.
Proof.
  intros Hl Hlo. destruct Hl as [|x l _ Hx]; [done|].
  injection Hlo as <-. constructor; [lia|done].
Qed.

Lemma StronglySorted_last_ge (l : list Z) (hi : Z) :
  StronglySorted Z.le l → last l = Some hi → Forall (λ x, (x ≤ hi)%Z) l.
Proof.
  intros Hl [l' ->]%last_Some. apply Forall_forall. intros x Hx.
  apply elem_of_app in Hx as [Hx|Hx].
  - eapply (StronglySorted_app_1_elem_of Z.le); [done..|]. by left.
  - apply list_elem_of_singleton in Hx as ->. lia.
Qed.

Lemma spread_score_of_sorted (N : Z) (s : list Z) :
  (1 < length s)%nat →
  ∃ lo hi, lo ∈ s ∧ hi ∈ s ∧ (∀ x, x ∈ s → (lo ≤ x ≤ hi)%Z)
    ∧ spread_score_of N (Py.sorted s)
      = Py.truediv (Qc_of_Z (hi - lo)) (Qc_of_Z N).
Proof.
  intros Hlen. pose proof (StronglySorted_sorted s) as Hsorted.
  pose proof (length_sorted s) as Hl. unfold spread_score_of.
  rewrite decide_True by lia.
  destruct (last (Py.sorted s)) as [hi|] eqn:Hhi.
  2: { apply last_None in Hhi. rewrite Hhi in Hl. cbn in Hl. lia. }
  destruct (Py.sorted s !! 0%nat) as [lo|] eqn:Hlo.
  2: { apply lookup_ge_None in Hlo. lia. }
  exists lo, hi. split; [|split; [|split]].
  - apply elem_of_sorted. by eapply list_elem_of_lookup_2.
  - apply elem_of_sorted. by apply last_Some_elem_of.
  - intros x Hx%elem_of_sorted.
    pose proof (StronglySorted_head_le _ _ Hsorted Hlo) as H1.
    pose proof (StronglySorted_last_ge _ _ Hsorted Hhi) as H2.
    rewrite Forall_forall in H1, H2. split; [by apply H1|by apply H2].
  - done.
Qed.

Lemma truediv_Ok_inv (x y v : Qc) : Py.truediv x y = Ok v → y ≠ 0 ∧ v = x / y.
Proof. unfold Py.truediv. case_decide; [done|]. by intros [= <-]. Qed.

(** X10: for a candidate sequence of at least two numbers the spread score is the
    difference between its largest and its smallest number divided by N, as
    a true division (a division-by-zero error when N is 0), and for a shorter
    one it is 0; these are the spread components of the records that
    [score_prediction_sets] returns. *)
Theorem spread_score_extremes (N : Z) (s : list Z) :
  ((1 < length s)%nat →
   ∃ lo hi, lo ∈ s ∧ hi ∈ s ∧ (∀ x, x ∈ s → (lo ≤ x ≤ hi)%Z)
     ∧ spread_score_of N (Py.sorted s)
       = Py.truediv (Qc_of_Z (hi - lo)) (Qc_of_Z N))
  ∧ ((length s ≤ 1)%nat → spread_score_of N (Py.sorted s) = Ok 0)
  ∧ (∀ self cands recent weights recs,
       num_numbers self = N →
       (score_prediction_sets cands recent weights self).2 = Ok recs →
       Forall2 (λ s r,
         ((length s ≤ 1)%nat → comp_spread (rec_components r) = 0)
         ∧ ((1 < length s)%nat →
            ∃ lo hi, lo ∈ s ∧ hi ∈ s ∧ (∀ x, x ∈ s → (lo ≤ x ≤ hi)%Z)
              ∧ comp_spread (rec_components r) = Qc_of_Z (hi - lo) / Qc_of_Z N))
         cands recs).
Proof.
  split; [apply spread_score_of_sorted|]. split.
  - intros Hlen. unfold spread_score_of.
    by rewrite length_sorted, decide_False by lia.
  - intros self cands recent weights recs HN Hrecs%score_prediction_sets_Ok_inv.
    eapply Forall2_impl; [exact Hrecs|]. intros s' r Hr. cbn beta in Hr.
    apply score_set_Ok_inv in Hr as (_ & Hsp & _). rewrite HN in Hsp. split.
    + intros Hlen. unfold spread_score_of in Hsp.
      rewrite length_sorted, decide_False in Hsp by lia. by injection Hsp.
    + intros Hlen.
      destruct (spread_score_of_sorted N s' Hlen) as (lo & hi & Hlo & Hhi & Hall & Heq).
      rewrite Heq in Hsp. apply truediv_Ok_inv in Hsp as [_ ->].
      by exists lo, hi.
Qed.

Lemma spread_score_extremes_witness :
  ∃ lo hi, lo ∈ candidate_C ∧ hi ∈ candidate_C
    ∧ (∀ x, x ∈ candidate_C → (lo ≤ x ≤ hi)%Z)
    ∧ spread_score_of 10 (Py.sorted candidate_C)
      = Py.truediv (Qc_of_Z (hi - lo)) (Qc_of_Z 10).
Proof. apply (proj1 (spread_score_extremes 10 candidate_C)). cbn. lia. Defined.

Lemma spread_score_of_in_range (N : Z) (s : list Z) :
  (1 ≤ N)%Z → Forall (λ x, (1 ≤ x ≤ N)%Z) s →
  ∃ v, spread_score_of N (Py.sorted s) = Ok v ∧ 0 ≤ v ∧ v < 1
       ∧ ((length s ≤ 1)%nat → v = 0).
Proof.
  intros HN Hs. destruct (decide (1 < length s)%nat) as [Hlen|Hlen].
  - destruct (spread_score_of_sorted N s Hlen) as (lo & hi & Hlo & Hhi & Hall & ->).
    rewrite Forall_forall in Hs.
    pose proof (Hs lo Hlo). pose proof (Hs hi Hhi). pose proof (Hall lo Hlo).
    assert (0 < Qc_of_Z N) as HNpos by (apply Qc_of_Z_pos; lia).
    rewrite truediv_nonzero by (by apply not_eq_sym, Qclt_not_eq).
    eexists. split; [done|]. split; [|split].
    + apply Qcdiv_unit; [apply Qc_of_Z_nonneg; lia| |done].
      apply (proj1 (Z2Qc_inj_le _ _)). lia.
    + rewrite <-(Qcmult_inv_r (Qc_of_Z N)) by (by apply not_eq_sym, Qclt_not_eq).
      unfold Qcdiv. apply Qcmult_lt_mono_pos_r; [by apply Qcinv_pos|].
      apply (proj1 (Z2Qc_inj_lt _ _)). lia.
    + intros ?. exfalso. lia.
  - unfold spread_score_of. rewrite length_sorted, decide_False by lia.
    exists 0. done.
Qed.

(** X11: when [score_prediction_sets] returns, it returns one record for each
    candidate set, in the order of the input, and the set of each record is
    the candidate sorted in ascending order: the same numbers with the same
    repetitions. *)
Theorem score_prediction_sets_records (self : IChingScorer) (cands : list (list Z))
    (recent : option (list (list Z))) (weights : option (gmap string Qc))
    (recs : list score_record) :
  (score_prediction_sets cands recent weights self).2 = Ok recs →
  length recs = length cands
  ∧ Forall2 (λ s r, rec_set r = Py.sorted s
                    ∧ Sorted Z.le (rec_set r)
                    ∧ rec_set r ≡ₚ s) cands recs.
Proof.
  intros Hrecs%score_prediction_sets_Ok_inv. split.
  - symmetry. by eapply Forall2_length.
  - eapply Forall2_impl; [exact Hrecs|]. intros s r Hr. cbn in Hr.
    apply score_set_Ok_inv in Hr as (-> & _). split; [done|]. split.
    + apply Sorted_merge_sort. apply _.
    + apply sorted_Permutation.
Qed.

Lemma score_prediction_sets_records_witness :
  ∃ self recs, __init__ (cfg 10) draws_A 1 = Ok self
    ∧ (score_prediction_sets (candidate_E' :: candidate_C :: []) None None self).2
      = Ok recs
    ∧ length recs = 2%nat.
Proof.
  assert (∃ self, __init__ (cfg 10) draws_A 1 = Ok self) as [self Hself]
    by (eexists; vm_compute; reflexivity).
  assert (∃ recs, (self ← __init__ (cfg 10) draws_A 1;
            (score_prediction_sets (candidate_E' :: candidate_C :: []) None None self).2)
          = Ok recs) as [recs Hrecs] by (eexists; vm_compute; reflexivity).
  rewrite Hself in Hrecs. cbn [mbind result_bind] in Hrecs.
  exists self, recs. split; [exact Hself|]. split; [exact Hrecs|].
  exact (proj1 (score_prediction_sets_records self _ None None recs Hrecs)).
Defined.

(** X12: the order in which the numbers of a candidate set are given does not
    matter to [score_prediction_sets]: candidate sets that are rearrangements
    of each other get the same record, or the same error. *)
Theorem score_prediction_sets_Permutation (self : IChingScorer)
    (cands cands' : list (list Z)) (recent : option (list (list Z)))
    (weights : option (gmap string Qc)) :
  Forall2 (≡ₚ) cands cands' →
  score_prediction_sets cands recent weights self
  = score_prediction_sets cands' recent weights self.
Proof.
  intros Hperm. unfold score_prediction_sets. f_equal.
  induction Hperm as [|s s' cands cands' Hs _ IH]; [done|].
  rewrite !mapM_cons, IH. f_equal.
  unfold score_set. by rewrite (sorted_Permutation_eq s s' Hs).
Qed.

Lemma score_prediction_sets_Permutation_witness :
  ∃ self, __init__ (cfg 10) draws_A 1 = Ok self
    ∧ score_prediction_sets (candidate_E :: []) None None self
      = score_prediction_sets (candidate_E' :: []) None None self.
Proof.
  assert (∃ self, __init__ (cfg 10) draws_A 1 = Ok self) as [self Hself]
    by (eexists; vm_compute; reflexivity).
  exists self. split; [exact Hself|].
  apply score_prediction_sets_Permutation.
  constructor; [|constructor].
  exact (Permutation_app_comm (1%Z :: 2%Z :: []) (3%Z :: [])).
Defined.

End candidate_sets.

(** ** Scores as means of stored probabilities *)

Section mean_scores.
Local Open Scope Qc_scope.

Lemma getitem_Ok_iff {V} (d : gmap Z V) (n : Z) (v : V) :
  Py.getitem d n = Ok v ↔ d !! n = Some v.
Proof.
  unfold Py.getitem. destruct (d !! n); split; intros H; by simplify_eq.
Qed.

Lemma mapM_getitem_all (d : gmap Z Qc) (l : list Z) :
  Forall (λ n, is_Some (d !! n)) l →
  mapM (Py.getitem d) l = Ok ((λ n, default 0 (d !! n)) <$> l).
Proof.
  intros Hall. apply mapM_Ok_fmap. eapply Forall_impl; [exact Hall|].
  intros n [v Hv]. cbn. unfold Py.getitem. by rewrite Hv.
Qed.

Lemma mapM_getitem_inv (d : gmap Z Qc) (l : list Z) (ps : list Qc) :
  mapM (Py.getitem d) l = Ok ps →
  Forall (λ n, is_Some (d !! n)) l ∧ ps = (λ n, default 0 (d !! n)) <$> l.
Proof.
  intros Hps. assert (Forall (λ n, is_Some (d !! n)) l) as Hall.
  { apply mapM_Ok_inv in Hps. induction Hps as [|n v l ps Hn _ IH]; constructor.
    - apply getitem_Ok_iff in Hn. by eexists.
    - done. }
  split; [done|]. rewrite mapM_getitem_all in Hps by done. by injection Hps.
Qed.

Lemma mean_nonempty (ps : list Qc) :
  ps ≠ [] → Py.mean ps = Ok (Py.sum ps / Qc_of_Z (Z.of_nat (length ps))).
Proof. by destruct ps. Qed.

(** the outcome of [score] on a non-empty sequence of stored numbers *)
Lemma score_all_stored (self : IChingScorer) (s : list Z) :
  s ≠ [] → Forall (λ n, is_Some (probabilities self !! n)) s →
  (score s self).2
  = Ok (Py.sum ((λ n, default 0 (probabilities self !! n)) <$> s)
        / Qc_of_Z (Z.of_nat (length s))).
Proof.
  intros Hs Hall. unfold score. cbn [snd]. rewrite mapM_getitem_all by done.
  cbn. rewrite mean_nonempty by (by destruct s). by rewrite length_fmap.
Qed.

Lemma freq_score_all_stored (probs : gmap Z Qc) (s : list Z) :
  s ≠ [] → Forall (λ n, is_Some (probs !! n)) s →
  freq_score_of probs (Py.sorted s)
  = Ok (Py.sum ((λ n, default 0 (probs !! n)) <$> s) / Qc_of_Z (Z.of_nat (length s))).
Proof.
  intros Hs Hall. unfold freq_score_of.
  rewrite mapM_getitem_all by (by rewrite sorted_Permutation). cbn.
  rewrite length_sorted, truediv_nonzero.
  - do 2 f_equal. apply sum_Permutation. by rewrite sorted_Permutation.
  - apply Qc_of_Z_nonzero. apply length_pos_of_ne_nil in Hs. lia.
Qed.

Lemma score_Ok_inv (self : IChingScorer) (s : list Z) (v : Qc) :
  (score s self).2 = Ok v →
  s ≠ [] ∧ Forall (λ n, is_Some (probabilities self !! n)) s.
Proof.
  unfold score. cbn [snd]. intros Hv.
  destruct (mapM _ _) as [ps|] eqn:Hps; [|done].
  apply mapM_getitem_inv in Hps as [Hall ->]. split; [|done].
  intros ->. done.
Qed.

Lemma freq_score_Ok_inv (probs : gmap Z Qc) (s : list Z) (v : Qc) :
  freq_score_of probs (Py.sorted s) = Ok v →
  Forall (λ n, is_Some (probs !! n)) s.
Proof.
  unfold freq_score_of. intros Hv.
  destruct (mapM _ _) as [ps|] eqn:Hps; [|done].
  apply mapM_getitem_inv in Hps as [Hall _]. by rewrite sorted_Permutation in Hall.
Qed.

(** X13: the frequency component that [score_prediction_sets] gives to a non-empty
    candidate set is the value that [score] returns for it: both are the mean
    of the stored probabilities of its numbers, and each is defined exactly
    when the other is. *)
Theorem frequency_component_is_score (self : IChingScorer) (s : list Z) (v : Qc) :
  s ≠ [] →
  ((score s self).2 = Ok v ↔ freq_score_of (probabilities self) (Py.sorted s) = Ok v)
  ∧ (∀ cands recent weights recs,
       (score_prediction_sets cands recent weights self).2 = Ok recs →
       Forall2 (λ s r, (score s self).2 = Ok (comp_frequency (rec_components r)))
         cands recs).
Proof.
  intros Hs. split; [split|].
  - intros Hv. destruct (score_Ok_inv _ _ _ Hv) as [_ Hall].
    rewrite score_all_stored in Hv by done.
    by rewrite freq_score_all_stored.
  - intros Hv. pose proof (freq_score_Ok_inv _ _ _ Hv) as Hall.
    rewrite freq_score_all_stored in Hv by done.
    by rewrite score_all_stored.
  - intros cands recent weights recs Hrecs%score_prediction_sets_Ok_inv.
    eapply Forall2_impl; [exact Hrecs|]. intros s' r Hr. cbn in Hr.
    pose proof (score_set_Ok_ne_nil _ _ _ _ _ _ Hr) as Hs'.
    apply score_set_Ok_inv in Hr as (_ & _ & _ & Hfr & _).
    pose proof (freq_score_Ok_inv _ _ _ Hfr) as Hall.
    rewrite freq_score_all_stored in Hfr by done.
    by rewrite score_all_stored.
Qed.

Lemma frequency_component_is_score_witness :
  ∃ self v, __init__ (cfg 10) draws_A 1 = Ok self
    ∧ (score candidate_E' self).2 = Ok v
    ∧ freq_score_of (probabilities self) (Py.sorted candidate_E') = Ok v.
Proof.
  assert (∃ self, __init__ (cfg 10) draws_A 1 = Ok self) as [self Hself]
    by (eexists; vm_compute; reflexivity).
  assert (∃ v, (self ← __init__ (cfg 10) draws_A 1; (score candidate_E' self).2)
               = Ok v) as [v Hv] by (eexists; vm_compute; reflexivity).
  rewrite Hself in Hv. cbn [mbind result_bind] in Hv.
  exists self, v. split; [exact Hself|]. split; [exact Hv|].
  refine (proj1 (proj1 (frequency_component_is_score self candidate_E' v _)) Hv).
  done.
Defined.

(** X14: for a single number [score] is the lookup of its stored probability,
    with the [KeyError] of the lookup when the number is not stored. *)
Theorem score_single_number (self : IChingScorer) (n : Z) :
  score (n :: []) self = (self, Py.getitem (probabilities self) n).
Proof.
  unfold score. f_equal. rewrite mapM_cons, mapM_nil.
  destruct (Py.getitem (probabilities self) n) as [v|e]; [|done].
  cbn -[Py.sum Qcdiv Qc_of_Z]. f_equal. rewrite sum_cons, sum_nil, Qcplus_0_r.
  change (Z.of_nat 1) with 1%Z. rewrite Z2Qc_inj_1. apply (right_id 1 Qcdiv).
Qed.

Lemma sum_unit (xs : list Qc) :
  Forall (λ v, 0 ≤ v ∧ v ≤ 1) xs →
  0 ≤ Py.sum xs ∧ Py.sum xs ≤ Qc_of_Z (Z.of_nat (length xs)).
Proof.
  induction 1 as [|x xs [Hx0 Hx1] _ [IH0 IH1]].
  - rewrite sum_nil. cbn [length]. change (Z.of_nat 0) with 0%Z.
    by rewrite Z2Qc_inj_0.
  - rewrite sum_cons. cbn [length]. rewrite Nat2Z.inj_succ, <-Z.add_1_l.
    rewrite Z2Qc_inj_add, Z2Qc_inj_1. split.
    + by apply Qcplus_nonneg_nonneg.
    + by apply Qcplus_le_compat.
Qed.

Lemma mean_stored_unit (probs : gmap Z Qc) (s : list Z) :
  unit_valued probs → s ≠ [] → Forall (λ n, is_Some (probs !! n)) s →
  0 ≤ Py.sum ((λ n, default 0 (probs !! n)) <$> s) / Qc_of_Z (Z.of_nat (length s))
  ∧ Py.sum ((λ n, default 0 (probs !! n)) <$> s) / Qc_of_Z (Z.of_nat (length s)) ≤ 1.
Proof.
  intros Hunit Hs Hall.
  destruct (sum_unit ((λ n, default 0 (probs !! n)) <$> s)) as [H0 H1].
  { apply Forall_fmap. eapply Forall_impl; [exact Hall|].
    intros n [v Hv]. cbn. rewrite Hv. cbn. by apply (Hunit n). }
  rewrite length_fmap in H1. apply Qcdiv_unit; [done..|].
  apply Qc_of_Z_pos. apply length_pos_of_ne_nil in Hs. lia.
Qed.

(** X15: when every stored probability lies between 0 and 1, so does every value
    that [score] returns and every frequency component that
    [score_prediction_sets] returns. *)
Theorem score_unit (self : IChingScorer) :
  unit_valued (probabilities self) →
  (∀ s v, (score s self).2 = Ok v → 0 ≤ v ∧ v ≤ 1)
  ∧ (∀ cands recent weights recs,
       (score_prediction_sets cands recent weights self).2 = Ok recs →
       Forall (λ r, 0 ≤ comp_frequency (rec_components r)
                    ∧ comp_frequency (rec_components r) ≤ 1) recs).
Proof.
  intros Hunit. split.
  - intros s v Hv. destruct (score_Ok_inv _ _ _ Hv) as [Hs Hall].
    rewrite score_all_stored in Hv by done. injection Hv as <-.
    by apply mean_stored_unit.
  - intros cands recent weights recs Hrecs%score_prediction_sets_Ok_inv.
    induction Hrecs as [|s r cands recs Hr _ IH]; constructor; [|done].
    pose proof (score_set_Ok_ne_nil _ _ _ _ _ _ Hr) as Hs.
    apply score_set_Ok_inv in Hr as (_ & _ & _ & Hfr & _).
    pose proof (freq_score_Ok_inv _ _ _ Hfr) as Hall.
    rewrite freq_score_all_stored in Hfr by done. injection Hfr as <-.
    by apply mean_stored_unit.
Qed.

Lemma score_unit_witness :
  ∃ self v, __init__ (cfg 10) draws_A 1 = Ok self
    ∧ (score candidate_C self).2 = Ok v ∧ 0 ≤ v ∧ v ≤ 1.
Proof.
  assert (∃ self, __init__ (cfg 10) draws_A 1 = Ok self) as [self Hself]
    by (eexists; vm_compute; reflexivity).
  assert (∃ v, (self ← __init__ (cfg 10) draws_A 1; (score candidate_C self).2)
               = Ok v) as [v Hv] by (eexists; vm_compute; reflexivity).
  rewrite Hself in Hv. cbn [mbind result_bind] in Hv.
  exists self, v. split; [exact Hself|]. split; [exact Hv|].
  refine (proj1 (score_unit self _) candidate_C v Hv).
  by eapply init_unit_valued.
Defined.

End mean_scores.

(** ** Recency, lookups outside the range and the composite *)

Section components_further.
Local Open Scope Qc_scope.

Lemma length_remove_dups_le (l : list Z) : (length (remove_dups l) ≤ length l)%nat.
Proof.
  induction l as [|x l IH]; [done|]. cbn [remove_dups length].
  case_decide; cbn [length]; lia.
Qed.

Lemma size_inter_le_length (l : list Z) (R : gset Z) :
  (size (list_to_set l ∩ R) ≤ length l)%nat.
Proof.
  rewrite size_inter_list_to_set.
  etrans; [apply length_filter|apply length_remove_dups_le].
Qed.

Lemma Qc_one_minus_unit (x : Qc) : 0 ≤ x → x ≤ 1 → 0 ≤ 1 - x ∧ 1 - x ≤ 1.
Proof.
  intros H0 H1. split.
  - by apply Qcle_minus_iff in H1.
  - apply Qcle_minus_iff. by replace (1 + - (1 - x)) with x by ring.
Qed.

Lemma recent_score_of_unit (R : gset Z) (l : list Z) (v : Qc) :
  recent_score_of R l = Ok v → 0 ≤ v ∧ v ≤ 1.
Proof.
  unfold recent_score_of. destruct (decide (R ≠ ∅)) as [HR|HR].
  - unfold Py.truediv. case_decide as Hk; [done|]. cbn. intros [= <-].
    assert (0 < Qc_of_Z (Z.of_nat (length l))) as Hpos.
    { apply Qc_of_Z_pos. destruct l; [|cbn [length]; lia].
      exfalso. apply Hk. apply Z2Qc_inj_0. }
    apply Qc_one_minus_unit; apply Qcdiv_unit; try done.
    + apply Qc_of_Z_nonneg. lia.
    + apply (proj1 (Z2Qc_inj_le _ _)). pose proof (size_inter_le_length l R). lia.
    + apply Qc_of_Z_nonneg. lia.
    + apply (proj1 (Z2Qc_inj_le _ _)). pose proof (size_inter_le_length l R). lia.
  - intros [= <-]. done.
Qed.

(** X16: the recency component of every record that [score_prediction_sets]
    returns lies between 0 and 1, whatever the candidate sets and the recent
    draws are, and it is 0 when every number of a candidate set of distinct
    numbers appears in the recent draws. *)
Theorem recency_score_unit (self : IChingScorer) (cands : list (list Z))
    (recent : option (list (list Z))) (weights : option (gmap string Qc))
    (recs : list score_record) :
  (score_prediction_sets cands recent weights self).2 = Ok recs →
  Forall (λ r, 0 ≤ comp_recent (rec_components r)
               ∧ comp_recent (rec_components r) ≤ 1) recs
  ∧ (∀ draws, recent = Some draws →
       Forall2 (λ s r, NoDup s → Forall (λ n, n ∈ concat draws) s →
                       comp_recent (rec_components r) = 0) cands recs).
Proof.
  intros Hrecs%score_prediction_sets_Ok_inv. split.
  - induction Hrecs as [|s r cands recs Hr _ IH]; constructor; [|done].
    apply score_set_Ok_inv in Hr as (_ & _ & _ & _ & Hre & _).
    by eapply recent_score_of_unit.
  - intros draws ->. eapply Forall2_impl; [exact Hrecs|].
    intros s r Hr Hnd Hall. cbn beta in Hr.
    pose proof (score_set_Ok_ne_nil _ _ _ _ _ _ Hr) as Hs.
    apply score_set_Ok_inv in Hr as (_ & _ & _ & _ & Hre & _).
    rewrite recent_score_of_sorted in Hre by done. injection Hre as <-.
    rewrite overlap_fraction_NoDup by done. unfold overlap_fraction.
    replace (filter (λ n, n ∈ concat draws) s) with s.
    + unfold Qcdiv. rewrite Qcmult_inv_r; [ring|].
      apply Qc_of_Z_nonzero. apply length_pos_of_ne_nil in Hs. lia.
    + clear Hs Hnd. induction Hall as [|x s Hx _ IH]; [done|].
      rewrite filter_cons_True by done. by rewrite <-IH.
Qed.

Lemma recency_score_unit_witness :
  ∃ self recs, __init__ (cfg 10) draws_A 1 = Ok self
    ∧ (score_prediction_sets (candidate_E :: []) (Some recent_E) None self).2 = Ok recs
    ∧ Forall (λ r, 0 ≤ comp_recent (rec_components r)
                   ∧ comp_recent (rec_components r) ≤ 1) recs.
Proof.
  assert (∃ self, __init__ (cfg 10) draws_A 1 = Ok self) as [self Hself]
    by (eexists; vm_compute; reflexivity).
  assert (∃ recs, (self ← __init__ (cfg 10) draws_A 1;
            (score_prediction_sets (candidate_E :: []) (Some recent_E) None self).2)
          = Ok recs) as [recs Hrecs] by (eexists; vm_compute; reflexivity).
  rewrite Hself in Hrecs. cbn [mbind result_bind] in Hrecs.
  exists self, recs. split; [exact Hself|]. split; [exact Hrecs|].
  exact (proj1 (recency_score_unit self _ _ None recs Hrecs)).
Defined.

Lemma getitem_in_range (self : IChingScorer) (n : Z) :
  reachable self → (1 ≤ n ≤ num_numbers self)%Z →
  is_Ok (Py.getitem (probabilities self) n).
Proof.
  intros Hreach Hn. apply (reachable_dom self n Hreach) in Hn.
  apply elem_of_dom in Hn as [v Hv]. exists v. by apply getitem_Ok_iff.
Qed.

Lemma getitem_out_of_range (self : IChingScorer) (n : Z) :
  reachable self → ¬ (1 ≤ n ≤ num_numbers self)%Z →
  Py.getitem (probabilities self) n = Raise (KeyError (KInt n)).
Proof.
  intros Hreach Hn. unfold Py.getitem.
  destruct (probabilities self !! n) as [v|] eqn:Hv; [|done].
  exfalso. apply Hn, (reachable_dom self n Hreach), elem_of_dom. by eexists.
Qed.

(** X17: on any object a program can hold, [score] raises [KeyError] for the
    first number of its argument that is outside the range 1..N. *)
Theorem score_out_of_range (self : IChingScorer) (pre post : list Z) (n : Z) :
  reachable self →
  Forall (λ x, (1 ≤ x ≤ num_numbers self)%Z) pre →
  ¬ (1 ≤ n ≤ num_numbers self)%Z →
  score (pre ++ n :: post) self = (self, Raise (KeyError (KInt n))).
Proof.
  intros Hreach Hpre Hn. unfold score. f_equal.
  rewrite (mapM_Raise_at _ pre post n (KeyError (KInt n))); [done| |].
  - eapply Forall_impl; [exact Hpre|]. intros x Hx. by apply getitem_in_range.
  - by apply getitem_out_of_range.
Qed.

Lemma score_out_of_range_witness :
  ∃ self, __init__ (cfg 10) draws_A 1 = Ok self
    ∧ score candidate_out self = (self, Raise (KeyError (KInt 11))).
Proof.
  assert (∃ self, __init__ (cfg 10) draws_A 1 = Ok self) as [self Hself]
    by (eexists; vm_compute; reflexivity).
  exists self. split; [exact Hself|].
  pose proof (init_fields _ _ _ _ Hself) as (_ & HN & _).
  unfold cfg in HN. rewrite lookup_singleton_eq in HN. injection HN as HN.
  apply (score_out_of_range self (3%Z :: []) (2%Z :: []) 11).
  - by eapply reachable_init.
  - rewrite <-HN. repeat (constructor; [lia|]). constructor.
  - rewrite <-HN. lia.
Defined.





(** X19: with the weights omitted the composite score of every returned record is
    the plain average of its four components. *)
Theorem default_weights_average (self : IChingScorer) (cands : list (list Z))
    (recent : option (list (list Z))) (recs : list score_record) :
  (score_prediction_sets cands recent None self).2 = Ok recs →
  Forall (λ r, rec_score r
               = (comp_spread (rec_components r) + comp_sum (rec_components r)
                  + comp_frequency (rec_components r)
                  + comp_recent (rec_components r)) / Qc_of_Z 4) recs.
Proof.
  intros Hrecs%score_prediction_sets_Ok_inv.
  induction Hrecs as [|s r cands recs Hr _ IH]; constructor; [|done].
  apply score_set_Ok_inv in Hr as (_ & _ & _ & _ & _ & Hc).
  change (default default_weights None) with default_weights in Hc.
  unfold composite, Py.getitem_str in Hc.
  change (default_weights !! "spread") with (Some quarter) in Hc.
  change (default_weights !! "sum") with (Some quarter) in Hc.
  change (default_weights !! "frequency") with (Some quarter) in Hc.
  change (default_weights !! "recent") with (Some quarter) in Hc.
  cbn in Hc. injection Hc as <-.
  assert (quarter = / Qc_of_Z 4) as -> by (by apply Qc_is_canon).
  unfold Qcdiv. ring.
Qed.

Lemma default_weights_average_witness :
  ∃ self recs, __init__ (cfg 10) draws_A 1 = Ok self
    ∧ (score_prediction_sets (candidate_C :: []) None None self).2 = Ok recs
    ∧ Forall (λ r, rec_score r
                   = (comp_spread (rec_components r) + comp_sum (rec_components r)
                      + comp_frequency (rec_components r)
                      + comp_recent (rec_components r)) / Qc_of_Z 4) recs.
Proof.
  assert (∃ self, __init__ (cfg 10) draws_A 1 = Ok self) as [self Hself]
    by (eexists; vm_compute; reflexivity).
  assert (∃ recs, (self ← __init__ (cfg 10) draws_A 1;
            (score_prediction_sets (candidate_C :: []) None None self).2)
          = Ok recs) as [recs Hrecs] by (eexists; vm_compute; reflexivity).
  rewrite Hself in Hrecs. cbn [mbind result_bind] in Hrecs.
  exists self, recs. split; [exact Hself|]. split; [exact Hrecs|].
  exact (default_weights_average self _ None recs Hrecs).
Defined.

End components_further.

(** ** What the returned records can hold *)

Section returned_records.
Local Open Scope Qc_scope.

Lemma sumZ_bounds (N : Z) (s : list Z) :
  Forall (λ x, (1 ≤ x ≤ N)%Z) s →
  (Z.of_nat (length s) ≤ Py.sumZ s ≤ N * Z.of_nat (length s))%Z.
Proof.
  induction 1 as [|x s Hx _ IH].
  - cbn. lia.
  - rewrite sumZ_cons. cbn [length]. rewrite Nat2Z.inj_succ, Z.mul_succ_r. lia.
Qed.

Lemma sum_balance_in_range (N : Z) (s : list Z) :
  (1 ≤ N)%Z → s ≠ [] → Forall (λ x, (1 ≤ x ≤ N)%Z) s →
  0 < sum_balance N s ∧ sum_balance N s ≤ 1.
Proof.
  intros HN Hs Hall. unfold sum_balance. cbv zeta.
  pose proof (sumZ_bounds N s Hall) as [Hlo Hhi].
  pose proof (length_pos_of_ne_nil s Hs) as Hk.
  set (k := Z.of_nat (length s)) in *.
  set (e := expected_sum_of N k).
  set (a := Qc_of_Z (Py.sumZ s)).
  assert (0 < e) as He by (apply expected_sum_of_pos; lia).
  assert (Qc_of_Z k ≤ a) as Ha1 by (by apply (proj1 (Z2Qc_inj_le _ _))).
  assert (a ≤ Qc_of_Z N * Qc_of_Z k) as Ha2.
  { rewrite <-Z2Qc_inj_mul. by apply (proj1 (Z2Qc_inj_le _ _)). }
  assert (0 < Qc_of_Z k) as HK by (apply Qc_of_Z_pos; lia).
  assert (Qc_of_Z 2 ≠ 0) as H2 by (by apply Qc_of_Z_nonzero).
  set (e' := e - Qc_of_Z k).
  assert (e = (Qc_of_Z N + 1) / Qc_of_Z 2 * Qc_of_Z k) as Hedef.
  { unfold e, expected_sum_of. by rewrite Z2Qc_inj_add, Z2Qc_inj_1. }
  assert (e + e' = Qc_of_Z N * Qc_of_Z k) as Hsum.
  { unfold e'. rewrite Hedef, Z2Qc_inj_2.
    field. intros Hc. apply (f_equal this) in Hc. vm_compute in Hc. discriminate. }
  assert (Qcabs (a - e) ≤ e') as Habs.
  { apply Qcabs_Qcle_condition. split.
    - apply (proj2 (Qcle_minus_iff _ _)).
      replace (a - e + - - e') with (a + - Qc_of_Z k) by (unfold e'; ring).
      exact (proj1 (Qcle_minus_iff _ _) Ha1).
    - apply (proj2 (Qcle_minus_iff _ _)).
      replace (e' + - (a - e)) with (e + e' + - a) by ring.
      rewrite Hsum. exact (proj1 (Qcle_minus_iff _ _) Ha2). }
  assert (e' < e) as He'.
  { apply (proj2 (Qclt_minus_iff _ _)).
    by replace (e + - e') with (Qc_of_Z k) by (unfold e'; ring). }
  assert (Qcabs (a - e) / e < 1) as Hlt.
  { rewrite <-(Qcmult_inv_r e) by (by apply not_eq_sym, Qclt_not_eq).
    unfold Qcdiv. apply Qcmult_lt_mono_pos_r; [by apply Qcinv_pos|].
    by eapply Qcle_lt_trans. }
  assert (0 ≤ Qcabs (a - e) / e) as Hge.
  { unfold Qcdiv. apply Qcmult_nonneg_nonneg; [apply Qcabs_nonneg|].
    by apply Qclt_le_weak, Qcinv_pos. }
  split.
  - apply (proj1 (Qclt_minus_iff _ _)) in Hlt.
    by replace (1 - Qcabs (a - e) / e) with (1 + - (Qcabs (a - e) / e)) by ring.
  - apply (proj2 (Qcle_minus_iff _ _)).
    by replace (1 + - (1 - Qcabs (a - e) / e)) with (Qcabs (a - e) / e) by ring.
Qed.

(** X20: on any object a program can hold, whatever [score_prediction_sets]
    returns comes from candidate sets that are non-empty and made of numbers
    of the range 1..N only, and in every returned record the spread component
    lies in [0, 1) and the sum-balance component in (0, 1]: a negative
    sum-balance score is never returned. *)
Theorem returned_records_bounds (self : IChingScorer) (cands : list (list Z))
    (recent : option (list (list Z))) (weights : option (gmap string Qc))
    (recs : list score_record) :
  reachable self →
  (score_prediction_sets cands recent weights self).2 = Ok recs →
  Forall2 (λ s r,
    s ≠ [] ∧ Forall (λ x, (1 ≤ x ≤ num_numbers self)%Z) s
    ∧ 0 ≤ comp_spread (rec_components r) ∧ comp_spread (rec_components r) < 1
    ∧ 0 < comp_sum (rec_components r) ∧ comp_sum (rec_components r) ≤ 1)
    cands recs.
Proof.
  intros Hreach Hrecs%score_prediction_sets_Ok_inv.
  eapply Forall2_impl; [exact Hrecs|]. intros s r Hr. cbn beta in Hr.
  pose proof (score_set_Ok_ne_nil _ _ _ _ _ _ Hr) as Hs.
  apply score_set_Ok_inv in Hr as (_ & Hsp & Hsu & Hfr & _).
  assert (Forall (λ x, (1 ≤ x ≤ num_numbers self)%Z) s) as Hall.
  { eapply Forall_impl; [exact (freq_score_Ok_inv _ _ _ Hfr)|].
    intros x Hx. apply (reachable_dom self x Hreach). by apply elem_of_dom. }
  assert (1 ≤ num_numbers self)%Z as HN.
  { destruct s as [|x s]; [done|]. apply Forall_cons in Hall as [? _]. lia. }
  split; [done|]. split; [done|].
  destruct (spread_score_of_in_range _ s HN Hall) as (v & Hv & H0 & H1 & _).
  rewrite Hv in Hsp. injection Hsp as <-.
  rewrite sum_score_of_sorted in Hsu by done. injection Hsu as <-.
  destruct (sum_balance_in_range _ s HN Hs Hall) as [H2 H3]. done.
Qed.

Lemma returned_records_bounds_witness :
  ∃ self recs, __init__ (cfg 10) draws_A 1 = Ok self
    ∧ (score_prediction_sets (candidate_C :: candidate_E :: []) None None self).2
      = Ok recs
    ∧ Forall (λ r, 0 < comp_sum (rec_components r)) recs.
Proof.
  assert (∃ self, __init__ (cfg 10) draws_A 1 = Ok self) as [self Hself]
    by (eexists; vm_compute; reflexivity).
  assert (∃ recs, (self ← __init__ (cfg 10) draws_A 1;
            (score_prediction_sets (candidate_C :: candidate_E :: []) None None self).2)
          = Ok recs) as [recs Hrecs] by (eexists; vm_compute; reflexivity).
  rewrite Hself in Hrecs. cbn [mbind result_bind] in Hrecs.
  exists self, recs. split; [exact Hself|]. split; [exact Hrecs|].
  pose proof (returned_records_bounds self _ None None recs
                (reachable_init _ _ _ _ Hself) Hrecs) as Hb.
  apply Forall2_Forall_r with (Q := λ r, 0 < comp_sum (rec_components r)) in Hb.
  - exact Hb.
  - apply Forall_forall. intros s _ r (_ & _ & _ & _ & H & _). exact H.
Defined.

End returned_records.
